(** * mutual-tls: a single-level certificate authority (index.js)

    A shallow embedding of [index.js].  The class [MutualTLS] keeps three
    fields ([_keyPair], [_cert], [_pem]); key and certificate material lives in
    Node [Buffer]s, which are mutable objects handed around by reference.  The
    embedding therefore keeps an explicit store of buffers and lets every
    [Buffer] value be an address into it.

    The code also reads the clock ([Date.now ()]), draws randomness (RSA key
    generation, [crypto.randomUUID ()]) and throws.  These effects are threaded
    through a state-and-exception monad over a [World].

    node-forge and the Node runtime are not part of the repository: they are
    taken as an interface ([Forge]), and the theorems hold for every
    implementation of it. *)

From Stdlib Require Import ZArith Lia Ascii String Bool.
From stdpp Require Import base list strings.

Local Open Scope string_scope.
Local Open Scope Z_scope.

(** ** JavaScript values *)

(** Numbers.  Only integral numbers and [NaN] are represented: every number
    the code computes with (millisecond clock readings, seconds of validity,
    key sizes) is integral, and integers are exact in a double below 2^53. *)
Inductive number :=
  | Fin (z : Z)
  | NaN.

(** A [Buffer] is an address into the store of buffers. *)
Definition loc := nat.

(** Primitive values, as they occur in the option objects and as the [name]
    argument of [authorize]. *)
Inductive prim :=
  | Undefined
  | Null
  | Bool (b : bool)
  | Num (n : number)
  | Str (s : string).

(** Values that occur where key or certificate material is expected: a
    primitive (a PEM string, or [undefined] for a missing property) or a
    [Buffer]. *)
Inductive jsval :=
  | Prim (p : prim)
  | Buf (l : loc).

(** The [name] argument of [authorize]: a primitive or an array of strings. *)
Inductive names :=
  | Name (p : prim)
  | Names (l : list string).

(** JavaScript truthiness ([ToBoolean]). *)
Definition truthy (p : prim) : bool :=
  match p with
  | Undefined | Null => false
  | Bool b => b
  | Num (Fin z) => negb (z =? 0)
  | Num NaN => false
  | Str s => negb (String.eqb s "")
  end.

(** Objects (buffers, arrays) are always truthy, even when empty. *)
Definition truthy_val (v : jsval) : bool :=
  match v with
  | Prim p => truthy p
  | Buf _ => true
  end.

Definition truthy_names (n : names) : bool :=
  match n with
  | Name p => truthy p
  | Names _ => true
  end.

(** [a || b] *)
Definition or_else (a b : prim) : prim := if truthy a then a else b.

Definition or_else_val (a b : jsval) : jsval := if truthy_val a then a else b.

(** Arithmetic on numbers; [NaN] is absorbing. *)
Definition num_add (a b : number) : number :=
  match a, b with
  | Fin x, Fin y => Fin (x + y)
  | _, _ => NaN
  end.

Definition num_sub (a b : number) : number :=
  match a, b with
  | Fin x, Fin y => Fin (x - y)
  | _, _ => NaN
  end.

Definition num_mul (a b : number) : number :=
  match a, b with
  | Fin x, Fin y => Fin (x * y)
  | _, _ => NaN
  end.

(** [a < b] on numbers: false as soon as one side is [NaN]. *)
Definition num_lt (a b : number) : bool :=
  match a, b with
  | Fin x, Fin y => x <? y
  | _, _ => false
  end.

(** [new Date (v)]: the time value is clipped ([TimeClip]); outside
    +-8.64e15 ms the date is invalid and its time value is [NaN]. *)
Definition MAX_TIME : Z := 8640000000000000.

Definition new_Date (v : number) : number :=
  match v with
  | Fin z => if Z.abs z <=? MAX_TIME then Fin z else NaN
  | NaN => NaN
  end.

(** ** Errors *)

(** The code throws plain [Error]s told apart by their message; [TypeError]
    is what the runtime throws on a property access on [null], on a call of
    something that is not a function, or on a bad [Buffer.from] argument;
    [ForgeError] is anything node-forge throws. *)
Inductive error :=
  | Error (message : string)
  | TypeError
  | ForgeError.

Definition MissingCertificateError : error := Error "Missing certificate".
Definition MissingKeyError : error := Error "Missing key pair or private key".
Definition MissingNameError : error := Error "Common name is required".

Inductive outcome (A : Type) :=
  | Returns (a : A)
  | Throws (e : error).
Arguments Returns {A} a.
Arguments Throws {A} e.

(** ** The world: buffers, clock, randomness *)

(** [heap] holds the contents of every allocated buffer.  Text is represented
    by its bytes throughout, so a string and the contents of a buffer have the
    same type.  [clock] and [entropy] are the readings the platform will
    deliver; [ticks] and [draws] count how many were consumed. *)
Record World := {
  heap : list string;
  clock : nat -> Z;
  ticks : nat;
  entropy : nat -> N;
  draws : nat
}.

Definition set_heap (h : list string) (w : World) : World :=
  {| heap := h; clock := clock w; ticks := ticks w;
     entropy := entropy w; draws := draws w |}.

Definition M (A : Type) : Type := World -> outcome A * World.

Definition ret {A} (a : A) : M A := fun w => (Returns a, w).

Definition throw {A} (e : error) : M A := fun w => (Throws e, w).

Definition bind {A B} (m : M A) (k : A -> M B) : M B :=
  fun w =>
    match m w with
    | (Returns a, w') => k a w'
    | (Throws e, w') => (Throws e, w')
    end.

Definition lift {A} (o : outcome A) : M A := fun w => (o, w).

(** A call into node-forge: [None] is the library throwing. *)
Definition forge {A} (o : option A) : M A :=
  fun w =>
    match o with
    | Some a => (Returns a, w)
    | None => (Throws ForgeError, w)
    end.

Notation "'let*' x ':=' c1 'in' c2" := (bind c1 (fun x => c2))
  (at level 10, x pattern, c2 at level 200, only parsing).

(** [Date.now ()] *)
Definition Date_now : M number :=
  fun w =>
    (Returns (Fin (clock w (ticks w))),
     {| heap := heap w; clock := clock w; ticks := S (ticks w);
        entropy := entropy w; draws := draws w |}).

(** One draw from the platform's random source. *)
Definition random : M N :=
  fun w =>
    (Returns (entropy w (draws w)),
     {| heap := heap w; clock := clock w; ticks := ticks w;
        entropy := entropy w; draws := S (draws w) |}).

(** Contents of a buffer. *)
Definition contents (w : World) (l : loc) : string :=
  match heap w !! l with
  | Some s => s
  | None => ""
  end.

(** What a library function sees of an argument that should be text: the text
    itself for a string or a buffer (which is read through [toString]), and
    the raw value otherwise. *)
Inductive arg :=
  | Text (s : string)
  | Other (p : prim).

Definition resolve (w : World) (v : jsval) : arg :=
  match v with
  | Prim (Str s) => Text s
  | Prim p => Other p
  | Buf l => Text (contents w l)
  end.

(** [Buffer.from (x)]: a new buffer holding a copy of the bytes of a string or
    of another buffer; a [TypeError] for [undefined], [null], a boolean or a
    number. *)
Definition Buffer_from (v : jsval) : M loc :=
  fun w =>
    match resolve w v with
    | Text s => (Returns (length (heap w)), set_heap (heap w ++ [s]) w)
    | Other _ => (Throws TypeError, w)
    end.

(** [buf[i] = c]: a caller writing one byte into a buffer it holds.  A
    buffer has a fixed length; a write past its end is ignored. *)
Definition Buffer_set (l : loc) (i : nat) (c : ascii) (w : World) : World :=
  match heap w !! l with
  | Some s =>
      set_heap
        (<[l := string_of_list_ascii (<[i := c]> (list_ascii_of_string s))]>
           (heap w)) w
  | None => w
  end.

(** ** Certificates *)

(** An entry of a distinguished name, [{ name, value }]. *)
Record attribute := {
  attr_name : string;
  attr_value : prim
}.

(** An entry of [subjectAltName]: [{ type: 7, ip }] or [{ type: 2, value }]. *)
Record altName := {
  alt_type : Z;
  alt_ip : option string;
  alt_value : option string
}.

(** The extension objects the code builds, one constructor per [name]. *)
Inductive extension :=
  | basicConstraints (cA : bool)
  | keyUsage
      (keyCertSign digitalSignature nonRepudiation
       keyEncipherment dataEncipherment : bool)
  | extKeyUsage
      (serverAuth clientAuth codeSigning emailProtection timeStamping : bool)
  | nsCertType (client server email objsign sslCA emailCA objCA : bool)
  | subjectKeyIdentifier
  | subjectAltName (altNames : list altName).

(** The fields of a forge certificate object that the code sets. *)
Record Certificate (PublicKey : Type) := {
  publicKey : PublicKey;
  serialNumber : string;
  notBefore : number;
  notAfter : number;
  subject : list attribute;
  issuer : list attribute;
  extensions : list extension;
  signature : option string
}.
Arguments publicKey {PublicKey} c.
Arguments serialNumber {PublicKey} c.
Arguments notBefore {PublicKey} c.
Arguments notAfter {PublicKey} c.
Arguments subject {PublicKey} c.
Arguments issuer {PublicKey} c.
Arguments extensions {PublicKey} c.
Arguments signature {PublicKey} c.

(** [cert.sign (key, md)] stores the signature in the certificate. *)
Definition with_signature {PK} (c : Certificate PK) (s : string) : Certificate PK :=
  {| publicKey := publicKey c; serialNumber := serialNumber c;
     notBefore := notBefore c; notAfter := notAfter c;
     subject := subject c; issuer := issuer c;
     extensions := extensions c; signature := Some s |}.

(** ** The libraries the code calls *)

(** node-forge ([forge.pki], [forge.pki.rsa]), [crypto.randomUUID] and the
    runtime's string-to-number conversion.  A result of [None] stands for the
    library throwing.  Key generation gets the value of [bits] as the caller passed it and one
    draw of randomness.  [fillMissingFields] is the check that
    [cert.setSubject] and [cert.setIssuer] run over the attributes before
    they store them, and [fillMissingExtensionFields] the one that
    [cert.setExtensions] runs over the extensions (it throws, for one, on an
    [ip] entry that is no IP address);
    [certificate_sign] is [cert.sign (key, forge.md.sha256.create ())]. *)
Class Forge := {
  PublicKey : Type;
  PrivateKey : Type;
  rsa_generateKeyPair : prim -> N -> option (PublicKey * PrivateKey);
  rsa_setPublicKey : Z -> Z -> PublicKey;
  key_n : PrivateKey -> Z;
  key_e : PrivateKey -> Z;
  publicKeyToPem : PublicKey -> string;
  privateKeyToPem : PrivateKey -> string;
  publicKeyFromPem : arg -> option PublicKey;
  privateKeyFromPem : arg -> option PrivateKey;
  fillMissingFields : list attribute -> option unit;
  fillMissingExtensionFields : PublicKey -> list extension -> option unit;
  certificate_sign : PrivateKey -> Certificate PublicKey -> option string;
  certificateToPem : Certificate PublicKey -> string;
  certificateFromPem : arg -> option (Certificate PublicKey);
  randomUUID : N -> string;
  StringToNumber : string -> number
}.

(** [ToNumber] on primitives, as applied by [*]. *)
Definition ToNumber `{Forge} (p : prim) : number :=
  match p with
  | Undefined => NaN
  | Null => Fin 0
  | Bool b => Fin (if b then 1 else 0)
  | Num n => n
  | Str s => StringToNumber s
  end.

(** ** index.js *)

Definition RSA_KEY_SIZE : Z := 2048.
Definition ROOT_COMMON_NAME : string := "Generic CA".
Definition ROOT_NOT_AFTER : Z := 365 * 86400.
Definition CERT_NOT_AFTER : Z := 90 * 86400.

(** The option object of the constructor and of [authorize]; a property that
    was not given reads as [Undefined]. *)
Record Opts := {
  opts_name : prim;
  opts_bits : prim;
  opts_expiry : prim
}.

(** [{}] *)
Definition no_opts : Opts :=
  {| opts_name := Undefined; opts_bits := Undefined; opts_expiry := Undefined |}.

(** [{ publicKey, privateKey }] as held by the authority: two buffers. *)
Record KeyPair := {
  kp_publicKey : loc;
  kp_privateKey : loc
}.

(** [{ publicKey, privateKey }] as a caller may pass it in [root.keyPair]. *)
Record KeyPairArg := {
  kpa_publicKey : jsval;
  kpa_privateKey : jsval
}.

(** The [root] argument of [from]; [root_keyPair = None] when the property is
    missing. *)
Record Root := {
  root_ca : jsval;
  root_key : jsval;
  root_publicKey : jsval;
  root_keyPair : option KeyPairArg
}.

(** The result of [authorize], [{ key, cert }]. *)
Record IssuedCertificate := {
  issued_key : loc;
  issued_cert : loc
}.

(** [/^[\d.]+$/]: one or more characters, each a decimal digit or a dot.
    Without the [m] flag [$] only matches at the very end. *)
Definition digit_or_dot (c : ascii) : bool :=
  let n := nat_of_ascii c in
  ((48 <=? n)%nat && (n <=? 57)%nat) || (n =? 46)%nat.

Fixpoint all_chars (p : ascii -> bool) (s : string) : bool :=
  match s with
  | EmptyString => true
  | String c s' => p c && all_chars p s'
  end.

Definition matches_digits_dots (s : string) : bool :=
  match s with
  | EmptyString => false
  | _ => all_chars digit_or_dot s
  end.

(** [str.replace (/-/g, '')] *)
Fixpoint remove_dashes (s : string) : string :=
  match s with
  | EmptyString => EmptyString
  | String c s' =>
      if Ascii.eqb c "-" then remove_dashes s' else String c (remove_dashes s')
  end.

(** Reading an argument on behalf of a library call. *)
Definition read (v : jsval) : M arg := fun w => (Returns (resolve w v), w).

Definition defaultAttributes (commonName : prim) : list attribute :=
  [ {| attr_name := "commonName"; attr_value := commonName |} ].

Definition defaultExtensionsRoot : list extension :=
  [ basicConstraints true;
    keyUsage true true true true true;
    extKeyUsage true true true true true;
    nsCertType true true true true true true true;
    subjectKeyIdentifier ].

Definition ALTNAME_TYPE_DNS : Z := 2.
Definition ALTNAME_TYPE_IP : Z := 7.

Definition getAltName (name : string) : altName :=
  if matches_digits_dots name
  then {| alt_type := ALTNAME_TYPE_IP; alt_ip := Some name; alt_value := None |}
  else {| alt_type := ALTNAME_TYPE_DNS; alt_ip := None; alt_value := Some name |}.

(** [altNames.map] exists on an array only: on a boolean or a number the call
    is a [TypeError]. *)
Definition defaultExtensionsCert (altNames : names) : outcome (list extension) :=
  match altNames with
  | Names l =>
      Returns
        [ basicConstraints false;
          keyUsage false true false true true;
          extKeyUsage true true false false false;
          nsCertType true true false false false false false;
          subjectKeyIdentifier;
          subjectAltName (map getAltName l) ]
  | Name _ => Throws TypeError
  end.

(** [name[0]]: the first element of an array, the first character of a
    string, [undefined] on a boolean or a number.  ([authorize] never gets
    here with [undefined] or [null], which are falsy.) *)
Definition first_name (name : names) : prim :=
  match name with
  | Names (s :: _) => Str s
  | Names [] => Undefined
  | Name (Str (String c _)) => Str (String c EmptyString)
  | Name _ => Undefined
  end.

(** The authority's fields. *)
Record MutualTLS_ (PublicKey : Type) := {
  _keyPair : KeyPair;
  _cert : Certificate PublicKey;
  _pem : loc
}.
Arguments _keyPair {PublicKey} m.
Arguments _cert {PublicKey} m.
Arguments _pem {PublicKey} m.

Definition MutualTLS `{Forge} : Type := MutualTLS_ PublicKey.

Section Code.
Context `{Forge}.

Definition generateKeyPair (bits : prim) : M KeyPair :=
  let* seed := random in
  let* keyPair := forge (rsa_generateKeyPair bits seed) in
  let* pub := Buffer_from (Prim (Str (publicKeyToPem (fst keyPair)))) in
  let* priv := Buffer_from (Prim (Str (privateKeyToPem (snd keyPair)))) in
  ret {| kp_publicKey := pub; kp_privateKey := priv |}.

Definition privateToPublicKey (privateKey : jsval) : M loc :=
  let* a := read privateKey in
  let* pk := forge (privateKeyFromPem a) in
  let publicKey := rsa_setPublicKey (key_n pk) (key_e pk) in
  Buffer_from (Prim (Str (publicKeyToPem publicKey))).

Definition generateSerialNumber : M string :=
  let* seed := random in
  ret (remove_dashes (randomUUID seed)).

Definition toKeyPair (root : Root) : M KeyPair :=
  match root_keyPair root with
  | Some kp =>
      let* pub := Buffer_from (kpa_publicKey kp) in
      let* priv := Buffer_from (kpa_privateKey kp) in
      ret {| kp_publicKey := pub; kp_privateKey := priv |}
  | None =>
      if truthy_val (root_key root) then
        let* src :=
          (if truthy_val (root_publicKey root)
           then ret (root_publicKey root)
           else let* b := privateToPublicKey (root_key root) in ret (Buf b)) in
        let* pub := Buffer_from src in
        let* priv := Buffer_from (root_key root) in
        ret {| kp_publicKey := pub; kp_privateKey := priv |}
      else throw (Error "Could not get key pair")
  end.

(** The certificate as it stands when [cert.sign] is called. *)
Definition build (pk : PublicKey) (serial : string) (nb na : number)
    (subj iss : list attribute) (exts : list extension)
    : Certificate PublicKey :=
  {| publicKey := pk; serialNumber := serial;
     notBefore := nb; notAfter := na;
     subject := subj; issuer := iss;
     extensions := exts; signature := None |}.

Definition _createCA (opts : option Opts) : M MutualTLS :=
  match opts with
  | None => throw TypeError
  | Some opts =>
      let* keyPair := generateKeyPair (or_else (opts_bits opts) (Num (Fin RSA_KEY_SIZE))) in
      let attributes := defaultAttributes (or_else (opts_name opts) (Str ROOT_COMMON_NAME)) in
      let extensions := defaultExtensionsRoot in
      let* pub := read (Buf (kp_publicKey keyPair)) in
      let* pk := forge (publicKeyFromPem pub) in
      let* serial := generateSerialNumber in
      let* t1 := Date_now in
      let nb := new_Date (num_sub t1 (Fin (86400 * 1000))) in
      let* t2 := Date_now in
      let na :=
        new_Date
          (num_add t2
             (num_mul
                (ToNumber (or_else (opts_expiry opts) (Num (Fin ROOT_NOT_AFTER))))
                (Fin 1000))) in
      let* _ := forge (fillMissingFields attributes) in
      let* _ := forge (fillMissingFields attributes) in
      let* _ := forge (fillMissingExtensionFields pk extensions) in
      let cert := build pk serial nb na attributes attributes extensions in
      let* priv := read (Buf (kp_privateKey keyPair)) in
      let* sk := forge (privateKeyFromPem priv) in
      let* sig := forge (certificate_sign sk cert) in
      let cert := with_signature cert sig in
      let* pem := Buffer_from (Prim (Str (certificateToPem cert))) in
      ret {| _keyPair := keyPair; _cert := cert; _pem := pem |}
  end.

Definition _loadCA (root : Root) : M MutualTLS :=
  if negb (truthy_val (root_ca root)) then throw (Error "Missing certificate")
  else if negb (bool_decide (is_Some (root_keyPair root)))
          && negb (truthy_val (root_key root))
  then throw (Error "Missing key pair or private key")
  else
    let* keyPair := toKeyPair root in
    let* ca := read (root_ca root) in
    let* cert := forge (certificateFromPem ca) in
    let* pem := Buffer_from (Prim (Str (certificateToPem cert))) in
    ret {| _keyPair := keyPair; _cert := cert; _pem := pem |}.

(** [constructor (opts = {}, root)].  [opts = None] is [null], which is what
    [from] passes; leaving [opts] out is [Some no_opts]. *)
Definition constructor (opts : option Opts) (root : option Root) : M MutualTLS :=
  match root with
  | None => _createCA opts
  | Some root => _loadCA root
  end.

(** [get key ()] *)
Definition key (this : MutualTLS) : M loc :=
  ret (kp_privateKey (_keyPair this)).

(** [get ca ()] *)
Definition ca (this : MutualTLS) : M loc :=
  ret (_pem this).

Definition authorize (this : MutualTLS) (name : names) (opts : option Opts)
    : M IssuedCertificate :=
  if negb (truthy_names name) then throw (Error "Common name is required")
  else
    let name := match name with Name (Str s) => Names [s] | _ => name end in
    match opts with
    | None => throw TypeError
    | Some opts =>
        let* keyPair := generateKeyPair (or_else (opts_bits opts) (Num (Fin RSA_KEY_SIZE))) in
        let* pub := read (Buf (kp_publicKey keyPair)) in
        let* pk := forge (publicKeyFromPem pub) in
        let* serial := generateSerialNumber in
        let* t1 := Date_now in
        let nb := new_Date (num_sub t1 (Fin (86400 * 1000))) in
        let* t2 := Date_now in
        let na :=
          new_Date
            (num_add t2
               (num_mul
                  (ToNumber (or_else (opts_expiry opts) (Num (Fin CERT_NOT_AFTER))))
                  (Fin 1000))) in
        let attributes := defaultAttributes (first_name name) in
        let issuer := issuer (_cert this) in
        let* extensions := lift (defaultExtensionsCert name) in
        let* _ := forge (fillMissingFields attributes) in
        let* _ := forge (fillMissingFields issuer) in
        let* _ := forge (fillMissingExtensionFields pk extensions) in
        let cert := build pk serial nb na attributes issuer extensions in
        let* priv := read (Buf (kp_privateKey (_keyPair this))) in
        let* sk := forge (privateKeyFromPem priv) in
        let* sig := forge (certificate_sign sk cert) in
        let cert := with_signature cert sig in
        let* pem := Buffer_from (Prim (Str (certificateToPem cert))) in
        ret {| issued_key := kp_privateKey keyPair; issued_cert := pem |}
    end.

(** [static from (root)]; [None] is a call without a usable [root]. *)
Definition from (root : option Root) : M MutualTLS :=
  constructor None root.

(** [static keyPair (bits)] *)
Definition keyPair (bits : prim) : M KeyPair :=
  generateKeyPair (or_else bits (Num (Fin RSA_KEY_SIZE))).

(** [static serialNumber ()] *)
Definition serialNumber_ : M string := generateSerialNumber.

(** [static toPublicKey (privateKey)] *)
Definition toPublicKey (privateKey : jsval) : M loc :=
  privateToPublicKey privateKey.

End Code.

(** ** A stand-in for the libraries

    A small implementation of the library interface, used to run the code on
    concrete inputs.  Keys are their own PEM text; a certificate is printed as
    the two common names of its subject and its issuer, separated by a slash;
    [randomUUID] formats a draw of randomness the way version 4 UUIDs are
    laid out. *)
Module Standin.

Definition commonName (l : list attribute) : string :=
  match l with
  | [ {| attr_value := Str s |} ] => s
  | _ => ""
  end.

Fixpoint split_slash (s : string) : option (string * string) :=
  match s with
  | EmptyString => None
  | String c s' =>
      if Ascii.eqb c "/" then Some (EmptyString, s')
      else match split_slash s' with
           | Some (a, b) => Some (String c a, b)
           | None => None
           end
  end.

Definition print (c : Certificate string) : string :=
  commonName (subject c) +:+ "/" +:+ commonName (issuer c).

Definition parse (a : arg) : option (Certificate string) :=
  match a with
  | Text s =>
      match split_slash s with
      | Some (subj, iss) =>
          Some {| publicKey := ""; serialNumber := "00";
                  notBefore := NaN; notAfter := NaN;
                  subject := defaultAttributes (Str subj);
                  issuer := defaultAttributes (Str iss);
                  extensions := []; signature := None |}
      | None => None
      end
  | Other _ => None
  end.

Definition text (a : arg) : option string :=
  match a with
  | Text s => Some s
  | Other _ => None
  end.

Definition hex_digit (n : N) : ascii :=
  match String.get (N.to_nat n) "0123456789abcdef" with
  | Some c => c
  | None => "0"%char
  end.

Fixpoint hex_of (digits : nat) (n : N) : string :=
  match digits with
  | O => ""
  | S d => hex_of d (n / 16) +:+ String (hex_digit (n mod 16)) ""
  end.

(** Sixteen random bytes with the version nibble set to 4 and the variant
    bits set to 10, printed as 8-4-4-4-12 hexadecimal digits. *)
Definition uuid_v4 (seed : N) : string :=
  let r := (seed mod 2 ^ 128)%N in
  let r := N.lor (N.ldiff r (N.shiftl 15 76)) (N.shiftl 4 76) in
  let r := N.lor (N.ldiff r (N.shiftl 3 62)) (N.shiftl 2 62) in
  let h := hex_of 32 r in
  substring 0 8 h +:+ "-" +:+ substring 8 4 h +:+ "-" +:+
  substring 12 4 h +:+ "-" +:+ substring 16 4 h +:+ "-" +:+
  substring 20 12 h.

(** An attribute without a value is refused. *)
Fixpoint check_attributes (l : list attribute) : option unit :=
  match l with
  | [] => Some tt
  | {| attr_value := Undefined |} :: _ => None
  | _ :: l' => check_attributes l'
  end.

Definition generate (bits : prim) (seed : N) : option (string * string) :=
  match bits with
  | Num (Fin z) =>
      if 0 <? z
      then Some ("PUBLIC KEY " +:+ hex_of 8 seed, "PRIVATE KEY " +:+ hex_of 8 seed)
      else None
  | _ => None
  end.

#[local] Instance lib : Forge := {|
  PublicKey := string;
  PrivateKey := string;
  rsa_generateKeyPair := generate;
  rsa_setPublicKey := fun n e => "PUBLIC KEY " +:+ hex_of 8 (Z.to_N n);
  key_n := fun sk => Z.of_nat (String.length sk);
  key_e := fun _ => 65537;
  publicKeyToPem := fun k => k;
  privateKeyToPem := fun k => k;
  publicKeyFromPem := text;
  privateKeyFromPem := text;
  fillMissingFields := check_attributes;
  fillMissingExtensionFields := fun _ _ => Some tt;
  certificate_sign := fun sk c => Some ("signed with " +:+ sk);
  certificateToPem := print;
  certificateFromPem := parse;
  randomUUID := uuid_v4;
  StringToNumber := fun _ => NaN
|}.

(** A world with no buffers yet, a clock that advances a millisecond or two
    between readings, and some draws of randomness. *)
Definition world : World :=
  {| heap := [];
     clock := fun n =>
       nth n [1700000000000; 1700000000001; 1700000000003; 1700000000004;
              1700000000006; 1700000000007] 1700000000009;
     ticks := 0;
     entropy := fun n =>
       nth n [210306068529402873165736369884012333109%N;
              76293689430298744116354012706520583966%N;
              301453266342396868517523213942326034430%N;
              159885025174240755513921070320193408399%N;
              22934986927819375465964523501237409381%N;
              263773711463470081122274299630406786427%N]
             97%N;
     draws := 0 |}.

(** The root the stand-in creates with the default options, and the world
    it leaves behind. *)
Definition created : outcome (MutualTLS_ string) * World :=
  Eval vm_compute in constructor (H := lib) (Some no_opts) None world.

Definition root : MutualTLS_ string :=
  Eval vm_compute in
    match fst created as o
      return match o with Returns _ => MutualTLS_ string | Throws _ => unit end
    with
    | Returns r => r
    | Throws _ => tt
    end.

Definition world1 : World := Eval vm_compute in snd created.

End Standin.

(** * Vocabulary of the statements *)

(** A certificate as it was when it was signed: without its signature. *)
Definition unsigned {PK} (c : Certificate PK) : Certificate PK :=
  {| publicKey := publicKey c; serialNumber := serialNumber c;
     notBefore := notBefore c; notAfter := notAfter c;
     subject := subject c; issuer := issuer c;
     extensions := extensions c; signature := None |}.

(** A time value that a [Date] can hold. *)
Definition valid_time (t : Z) : Prop := Z.abs t <= MAX_TIME.

(** The [expiry] option is either left out, and then [e] is the default, or
    it is the non-zero number [e]. *)
Definition expiry_is (default : Z) (expiry : prim) (e : Z) : Prop :=
  (expiry = Undefined /\ e = default) \/ (expiry = Num (Fin e) /\ e <> 0).

(** A name made of decimal digits and dots only, and of at least one of
    them: what [^[0-9.]+$] accepts. *)
Definition only_digits_and_dots (s : string) : Prop :=
  s <> "" /\
  forall c, In c (list_ascii_of_string s) ->
    (48 <= nat_of_ascii c <= 57)%nat \/ c = "."%char.

(** The buffer a value refers to, if it is one, exists in the world. *)
Definition exists_in (w : World) (v : jsval) : Prop :=
  match v with
  | Buf l => (l < length (heap w))%nat
  | Prim _ => True
  end.

(** A lower-case hexadecimal digit. *)
Definition is_hex (c : ascii) : bool :=
  let n := nat_of_ascii c in
  ((48 <=? n)%nat && (n <=? 57)%nat) || ((97 <=? n)%nat && (n <=? 102)%nat).

(** [hex_group n s]: what is left of [s] after [n] hexadecimal digits. *)
Fixpoint hex_group (n : nat) (s : string) : option string :=
  match n with
  | O => Some s
  | S n' =>
      match s with
      | String c s' => if is_hex c then hex_group n' s' else None
      | EmptyString => None
      end
  end.

(** Groups of hexadecimal digits of the given sizes, separated by dashes. *)
Fixpoint hex_groups (sizes : list nat) (s : string) : bool :=
  match sizes with
  | [] => false
  | [n] =>
      match hex_group n s with
      | Some EmptyString => true
      | _ => false
      end
  | n :: sizes' =>
      match hex_group n s with
      | Some (String c s') => Ascii.eqb c "-" && hex_groups sizes' s'
      | _ => false
      end
  end.

(** The textual form of a UUID, which is what [crypto.randomUUID ()]
    returns: 8-4-4-4-12 hexadecimal digits. *)
Definition is_uuid (s : string) : bool := hex_groups [8; 4; 4; 4; 12]%nat s.

(** The value of a hexadecimal digit. *)
Definition digit_value (c : ascii) : N :=
  let n := N.of_nat (nat_of_ascii c) in
  if (n <=? 57)%N then (n - 48)%N else (n - 87)%N.

(** The number a string of hexadecimal digits denotes, most significant
    digit first. *)
Fixpoint hex_value (acc : N) (s : string) : N :=
  match s with
  | EmptyString => acc
  | String c s' => hex_value (16 * acc + digit_value c) s'
  end.

(** Every error a computation can throw satisfies [P]. *)
Definition throws_only {A} (P : error -> Prop) (m : M A) : Prop :=
  forall w e w', m w = (Throws e, w') -> P e.

(** The buffers an authority holds. *)
Definition buffers {PK} (this : MutualTLS_ PK) : list loc :=
  [ kp_publicKey (_keyPair this); kp_privateKey (_keyPair this); _pem this ].


(** The array [name] is after [if (typeof name === 'string') name = [name]],
    when it is one. *)
Definition name_array (name : names) : option (list string) :=
  match name with
  | Name (Str s) => Some [s]
  | Name _ => None
  | Names l => Some l
  end.

Section Vocabulary.
Context `{Forge}.

(** The certificate a fresh root is given, before it is signed. *)
Definition root_certificate (opts : Opts) (pk : PublicKey) (serial : string)
    (t1 t2 : Z) : Certificate PublicKey :=
  let attributes :=
    defaultAttributes (or_else (opts_name opts) (Str ROOT_COMMON_NAME)) in
  build pk serial
    (new_Date (num_sub (Fin t1) (Fin (86400 * 1000))))
    (new_Date
       (num_add (Fin t2)
          (num_mul
             (ToNumber (or_else (opts_expiry opts) (Num (Fin ROOT_NOT_AFTER))))
             (Fin 1000))))
    attributes attributes defaultExtensionsRoot.

(** The certificate [authorize] assembles, before it is signed. *)
Definition leaf_certificate (this : MutualTLS) (l : list string)
    (exts : list extension) (opts : Opts) (pk : PublicKey) (serial : string)
    (t1 t2 : Z) : Certificate PublicKey :=
  build pk serial
    (new_Date (num_sub (Fin t1) (Fin (86400 * 1000))))
    (new_Date
       (num_add (Fin t2)
          (num_mul
             (ToNumber (or_else (opts_expiry opts) (Num (Fin CERT_NOT_AFTER))))
             (Fin 1000))))
    (defaultAttributes (first_name (Names l)))
    (issuer (_cert this)) exts.

(** The world in which [authorize] reads the authority's private key: the
    new key pair has been allocated by then. *)
Definition after_generation (w : World) (pk : PublicKey) (sk : PrivateKey)
    : World :=
  {| heap := heap w ++ [publicKeyToPem pk; privateKeyToPem sk];
     clock := clock w; ticks := S (S (ticks w));
     entropy := entropy w; draws := S (S (draws w)) |}.

(** What it would mean for an accessor to hand out defensive copies: the
    buffer it returns is not the one the authority stores, and writing into
    the returned buffer leaves the bytes seen by a later read as they were. *)
Definition defensive_copy (get : MutualTLS -> M loc) (stored : MutualTLS -> loc)
    (this : MutualTLS) (w : World) : Prop :=
  forall l w', get this w = (Returns l, w') ->
    l <> stored this /\
    forall i c l2 w2,
      get this (Buffer_set l i c w') = (Returns l2, w2) ->
      contents w2 l2 = contents w' l.

End Vocabulary.

(** [w'] is [w] after some buffers were allocated and some readings of the
    clock and draws of randomness were consumed: every buffer of [w] is still
    there with its contents, and the readings to come are the same. *)
Definition extends (w w' : World) : Prop :=
  (exists l, heap w' = (heap w ++ l)%list) /\
  clock w' = clock w /\ entropy w' = entropy w /\
  (ticks w <= ticks w')%nat /\ (draws w <= draws w')%nat.

(** A computation that, whether it returns or throws, only ever allocates. *)
Definition allocates_only {A} (m : M A) : Prop :=
  forall w, extends w (snd (m w)).

(** A computation that neither reads the clock nor draws randomness. *)
Definition quiet {A} (m : M A) : Prop :=
  forall w, ticks (snd (m w)) = ticks w /\ draws (snd (m w)) = draws w.

(** * Properties *)

(** ** Running a computation step by step *)

Arguments num_add : simpl never.
Arguments num_sub : simpl never.
Arguments num_mul : simpl never.
Arguments new_Date : simpl never.
Arguments contents : simpl never.

Lemma bind_Returns {A B} (m : M A) (k : A -> M B) w b w' :
  bind m k w = (Returns b, w') ->
  exists a w1, m w = (Returns a, w1) /\ k a w1 = (Returns b, w').
Proof.
  unfold bind. destruct (m w) as [[a | e] w1]; intros E.
  - exists a, w1. split; [reflexivity | exact E].
  - discriminate E.
Qed.

Lemma forge_Returns {A} (o : option A) w a w' :
  forge o w = (Returns a, w') -> o = Some a /\ w' = w.
Proof.
  unfold forge. destruct o; intros E; inversion E; auto.
Qed.

Lemma lift_Returns {A} (o : outcome A) w a w' :
  lift o w = (Returns a, w') -> o = Returns a /\ w' = w.
Proof.
  unfold lift. intros E; inversion E; auto.
Qed.

Lemma ret_Returns {A} (x : A) w a w' :
  ret x w = (Returns a, w') -> a = x /\ w' = w.
Proof.
  unfold ret. intros E; inversion E; auto.
Qed.

Lemma read_Returns v w a w' :
  read v w = (Returns a, w') -> a = resolve w v /\ w' = w.
Proof.
  unfold read. intros E; inversion E; auto.
Qed.

Lemma Buffer_from_text s w l w' :
  Buffer_from (Prim (Str s)) w = (Returns l, w') ->
  l = length (heap w) /\ w' = set_heap (heap w ++ [s]) w.
Proof.
  unfold Buffer_from. simpl. intros E; inversion E; auto.
Qed.

Lemma Buffer_from_Buf b w l w' :
  Buffer_from (Buf b) w = (Returns l, w') ->
  l = length (heap w) /\ w' = set_heap (heap w ++ [contents w b]) w.
Proof.
  unfold Buffer_from. simpl. intros E; inversion E; auto.
Qed.

Lemma Date_now_Returns w t w' :
  Date_now w = (Returns t, w') ->
  t = Fin (clock w (ticks w)) /\
  w' = {| heap := heap w; clock := clock w; ticks := S (ticks w);
          entropy := entropy w; draws := draws w |}.
Proof.
  unfold Date_now. intros E; inversion E; auto.
Qed.

Lemma random_Returns w r w' :
  random w = (Returns r, w') ->
  r = entropy w (draws w) /\
  w' = {| heap := heap w; clock := clock w; ticks := ticks w;
          entropy := entropy w; draws := S (draws w) |}.
Proof.
  unfold random. intros E; inversion E; auto.
Qed.

(** Split a run that returned into the runs of its steps. *)
Ltac step H :=
  let a := fresh "a" in
  let w := fresh "w" in
  let H1 := fresh "Hs" in
  apply bind_Returns in H; destruct H as (a & w & H1 & H);
  lazymatch type of H1 with
  | forge _ _ = _ => apply forge_Returns in H1; destruct H1 as [H1 ->]
  | lift _ _ = _ => apply lift_Returns in H1; destruct H1 as [H1 ->]
  | read _ _ = _ => apply read_Returns in H1; destruct H1 as [-> ->]
  | Buffer_from (Prim (Str _)) _ = _ =>
      apply Buffer_from_text in H1; destruct H1 as [-> ->]
  | Buffer_from (Buf _) _ = _ =>
      apply Buffer_from_Buf in H1; destruct H1 as [-> ->]
  | Date_now _ = _ => apply Date_now_Returns in H1; destruct H1 as [-> ->]
  | random _ = _ => apply random_Returns in H1; destruct H1 as [-> ->]
  | ret _ _ = _ => apply ret_Returns in H1; destruct H1 as [-> ->]
  | _ => idtac
  end.

(** Reading the buffers that a run has just allocated. *)
Lemma lookup_new (h l : list string) (k : nat) :
  (h ++ l)%list !! (length h + k)%nat = l !! k.
Proof.
  rewrite lookup_app_r by lia. f_equal. lia.
Qed.

Lemma contents_new h c ti e d (l : list string) (k : nat) s :
  l !! k = Some s ->
  contents {| heap := (h ++ l)%list; clock := c; ticks := ti;
              entropy := e; draws := d |} (length h + k)%nat = s.
Proof.
  intros E. unfold contents. cbn [heap]. rewrite lookup_new, E. reflexivity.
Qed.

Lemma contents_new0 h c ti e d a (l : list string) :
  contents {| heap := h ++ a :: l; clock := c; ticks := ti;
              entropy := e; draws := d |} (length h) = a.
Proof.
  rewrite <- (Nat.add_0_r (length h)). now apply contents_new.
Qed.

Lemma contents_new1 h c ti e d a b (l : list string) :
  contents {| heap := h ++ a :: b :: l; clock := c; ticks := ti;
              entropy := e; draws := d |} (S (length h)) = b.
Proof.
  rewrite <- (Nat.add_1_r (length h)). now apply contents_new.
Qed.

Lemma contents_new2 h c ti e d a b x (l : list string) :
  contents {| heap := h ++ a :: b :: x :: l; clock := c; ticks := ti;
              entropy := e; draws := d |} (S (S (length h))) = x.
Proof.
  replace (S (S (length h))) with (length h + 2)%nat by lia.
  now apply contents_new.
Qed.

(** A buffer that existed before is not touched by allocation. *)
Lemma contents_old h c ti e d c' ti' e' d' (l : list string) (i : loc) :
  (i < length h)%nat ->
  contents {| heap := (h ++ l)%list; clock := c; ticks := ti;
              entropy := e; draws := d |} i =
  contents {| heap := h; clock := c'; ticks := ti';
              entropy := e'; draws := d' |} i.
Proof.
  intros Hi. unfold contents. cbn [heap]. now rewrite lookup_app_l.
Qed.

Section Runs.
Context `{Forge}.

(** A run of [generateKeyPair] that returns has drawn once, generated a
    pair, and put its two PEM texts into two new buffers. *)
Lemma generateKeyPair_Returns bits w kp w' :
  generateKeyPair bits w = (Returns kp, w') ->
  exists pk sk,
    rsa_generateKeyPair bits (entropy w (draws w)) = Some (pk, sk) /\
    kp = {| kp_publicKey := length (heap w);
            kp_privateKey := S (length (heap w)) |} /\
    w' = {| heap := heap w ++ [publicKeyToPem pk; privateKeyToPem sk];
            clock := clock w; ticks := ticks w;
            entropy := entropy w; draws := S (draws w) |}.
Proof.
  unfold generateKeyPair. intros E.
  step E. step E. destruct a as [pk sk]. step E. step E.
  apply ret_Returns in E. destruct E as [-> ->].
  exists pk, sk. simpl in *. split; [exact Hs |]. split.
  - f_equal. rewrite length_app. simpl. lia.
  - unfold set_heap. simpl. rewrite <- app_assoc. reflexivity.
Qed.

Lemma generateSerialNumber_Returns w s w' :
  generateSerialNumber w = (Returns s, w') ->
  s = remove_dashes (randomUUID (entropy w (draws w))) /\
  w' = {| heap := heap w; clock := clock w; ticks := ticks w;
          entropy := entropy w; draws := S (draws w) |}.
Proof.
  unfold generateSerialNumber. intros E. step E.
  apply ret_Returns in E. destruct E as [-> ->]. auto.
Qed.

(** What a run of [_createCA] that returns has done. *)
Lemma createCA_Returns opts w this w' :
  _createCA (Some opts) w = (Returns this, w') ->
  exists pk sk pk' sk' sig,
    let cert :=
      root_certificate opts pk'
        (remove_dashes (randomUUID (entropy w (S (draws w)))))
        (clock w (ticks w)) (clock w (S (ticks w))) in
    rsa_generateKeyPair (or_else (opts_bits opts) (Num (Fin RSA_KEY_SIZE)))
      (entropy w (draws w)) = Some (pk, sk) /\
    publicKeyFromPem (Text (publicKeyToPem pk)) = Some pk' /\
    privateKeyFromPem (Text (privateKeyToPem sk)) = Some sk' /\
    fillMissingExtensionFields pk' defaultExtensionsRoot = Some tt /\
    certificate_sign sk' cert = Some sig /\
    this = {| _keyPair := {| kp_publicKey := length (heap w);
                             kp_privateKey := S (length (heap w)) |};
              _cert := with_signature cert sig;
              _pem := S (S (length (heap w))) |} /\
    w' = {| heap := heap w ++ [publicKeyToPem pk; privateKeyToPem sk;
                               certificateToPem (with_signature cert sig)];
            clock := clock w; ticks := S (S (ticks w));
            entropy := entropy w; draws := S (S (draws w)) |}.
Proof.
  unfold _createCA. intros E.
  step E. apply generateKeyPair_Returns in Hs.
  destruct Hs as (pk & sk & Hgen & -> & ->).
  step E. step E.
  step E. apply generateSerialNumber_Returns in Hs0. destruct Hs0 as [-> ->].
  step E. step E. step E. step E. step E. step E. step E. step E. step E.
  apply ret_Returns in E. destruct E as [-> ->].
  simpl in *.
  rewrite contents_new0 in Hs. rewrite contents_new1 in Hs3.
  destruct a0, a1, a2.
  exists pk, sk, a, a3, a4. cbv zeta.
  repeat split; try assumption.
  - f_equal. rewrite length_app. simpl. f_equal. lia.
  - unfold set_heap. simpl. rewrite <- app_assoc. reflexivity.
Qed.

(** What a run of [authorize] that returns has done. *)
Lemma authorize_Returns this name opts w r w' :
  authorize this name (Some opts) w = (Returns r, w') ->
  exists l exts pk sk pk' sk' sig,
    let cert :=
      leaf_certificate this l exts opts pk'
        (remove_dashes (randomUUID (entropy w (S (draws w)))))
        (clock w (ticks w)) (clock w (S (ticks w))) in
    truthy_names name = true /\
    name_array name = Some l /\
    defaultExtensionsCert (Names l) = Returns exts /\
    rsa_generateKeyPair (or_else (opts_bits opts) (Num (Fin RSA_KEY_SIZE)))
      (entropy w (draws w)) = Some (pk, sk) /\
    publicKeyFromPem (Text (publicKeyToPem pk)) = Some pk' /\
    privateKeyFromPem
      (Text (contents (after_generation w pk sk)
               (kp_privateKey (_keyPair this)))) = Some sk' /\
    fillMissingExtensionFields pk' exts = Some tt /\
    certificate_sign sk' cert = Some sig /\
    r = {| issued_key := S (length (heap w));
           issued_cert := S (S (length (heap w))) |} /\
    w' = {| heap := heap w ++ [publicKeyToPem pk; privateKeyToPem sk;
                               certificateToPem (with_signature cert sig)];
            clock := clock w; ticks := S (S (ticks w));
            entropy := entropy w; draws := S (S (draws w)) |}.
Proof.
  unfold authorize. intros E.
  destruct (truthy_names name) eqn:Htruthy; [| discriminate E].
  cbn [negb] in E.
  step E. apply generateKeyPair_Returns in Hs.
  destruct Hs as (pk & sk & Hgen & -> & ->).
  step E. step E.
  step E. apply generateSerialNumber_Returns in Hs0. destruct Hs0 as [-> ->].
  step E. step E. step E. step E. step E. step E. step E. step E. step E. step E.
  apply ret_Returns in E. destruct E as [-> ->].
  simpl in *.
  rewrite contents_new0 in Hs.
  destruct a1, a2, a3.
  assert (exists l, name_array name = Some l /\
                    match name with Name (Str s) => Names [s] | _ => name end
                    = Names l) as (l & Hl & Hname).
  { destruct name as [p | l].
    - destruct p; try discriminate Hs0. eexists; split; reflexivity.
    - eexists; split; reflexivity. }
  rewrite Hname in *.
  exists l, a0, pk, sk, a, a4, a5. cbv zeta.
  repeat split; try assumption.
  - f_equal. rewrite length_app. simpl. f_equal. lia.
  - unfold set_heap. simpl. rewrite <- app_assoc. reflexivity.
Qed.

End Runs.

Section RootCreation.
Context `{Forge}.

(** C9.  A freshly created root: the buffer behind [ca] holds the PEM of a
    certificate whose subject and issuer are both the single attribute
    [commonName = name] (the name that was given, or "Generic CA" when none
    was), whose extensions are exactly basicConstraints with cA,
    keyUsage with its five flags set, extKeyUsage with its five flags set,
    nsCertType with its seven flags set and subjectKeyIdentifier, with no
    subjectAltName among them; and it is self-signed: the signature was
    made with the private key of the generated pair, whose public half is
    the certificate's public key. *)
Theorem root_certificate_shape (opts : Opts) (w : World)
    (this : MutualTLS) (w' : World) :
  constructor (Some opts) None w = (Returns this, w') ->
  let c := _cert this in
  let name :=
    if truthy (opts_name opts) then opts_name opts else Str "Generic CA" in
  contents w' (_pem this) = certificateToPem c /\
  subject c = [ {| attr_name := "commonName"; attr_value := name |} ] /\
  issuer c = subject c /\
  extensions c =
    [ basicConstraints true;
      keyUsage true true true true true;
      extKeyUsage true true true true true;
      nsCertType true true true true true true true;
      subjectKeyIdentifier ] /\
  (forall altNames, ~ In (subjectAltName altNames) (extensions c)) /\
  exists pk sk sk' sig,
    rsa_generateKeyPair
      (if truthy (opts_bits opts) then opts_bits opts else Num (Fin 2048))
      (entropy w (draws w)) = Some (pk, sk) /\
    contents w' (kp_publicKey (_keyPair this)) = publicKeyToPem pk /\
    contents w' (kp_privateKey (_keyPair this)) = privateKeyToPem sk /\
    publicKeyFromPem (Text (publicKeyToPem pk)) = Some (publicKey c) /\
    privateKeyFromPem (Text (privateKeyToPem sk)) = Some sk' /\
    certificate_sign sk' (unsigned c) = Some sig /\
    signature c = Some sig.
Proof.
  intros E. simpl in E. apply createCA_Returns in E.
  destruct E as (pk & sk & pk' & sk' & sig & Hgen & Hpub & Hpriv & _ & Hsign & -> & ->).
  cbn [_cert _pem _keyPair kp_publicKey kp_privateKey].
  split; [apply contents_new2 |].
  split; [reflexivity |]. split; [reflexivity |]. split; [reflexivity |].
  split.
  { intros altNames Hin. simpl in Hin.
    repeat (destruct Hin as [Hin | Hin]; [discriminate Hin |]). exact Hin. }
  exists pk, sk, sk', sig.
  split; [exact Hgen |].
  split; [apply contents_new0 |]. split; [apply contents_new1 |].
  split; [exact Hpub |]. split; [exact Hpriv |].
  split; [exact Hsign | reflexivity].
Qed.

End RootCreation.

Section RootCreationRun.
#[local] Existing Instance Standin.lib.

(** The stand-in library creates a root with the default options. *)
Lemma root_certificate_shape_witness :
  exists this w',
    constructor (H := Standin.lib) (Some no_opts) None Standin.world
      = (Returns this, w') /\
    contents w' (_pem this) = certificateToPem (_cert this) /\
    subject (_cert this)
      = [ {| attr_name := "commonName"; attr_value := Str "Generic CA" |} ] /\
    issuer (_cert this) = subject (_cert this) /\
    extensions (_cert this) = defaultExtensionsRoot /\
    (forall altNames, ~ In (subjectAltName altNames) (extensions (_cert this))).
Proof.
  eexists. eexists. split; [vm_compute; reflexivity |].
  pose proof (root_certificate_shape (H := Standin.lib) no_opts Standin.world
                _ _ ltac:(vm_compute; reflexivity)) as T.
  cbv zeta in T. destruct T as (T1 & T2 & T3 & T4 & T5 & _).
  split; [exact T1 |]. split; [exact T2 |]. split; [exact T3 |].
  split; [exact T4 | exact T5].
Defined.

End RootCreationRun.

(** ** Validity window *)

Section Validity.
Context `{Forge}.

Lemma window default expiry e t1 t2 :
  default <> 0 ->
  expiry_is default expiry e ->
  valid_time (t1 - 86400000) ->
  valid_time (t2 + e * 1000) ->
  new_Date (num_sub (Fin t1) (Fin (86400 * 1000))) = Fin (t1 - 86400000) /\
  new_Date
    (num_add (Fin t2)
       (num_mul (ToNumber (or_else expiry (Num (Fin default)))) (Fin 1000)))
    = Fin (t2 + e * 1000).
Proof.
  unfold valid_time, new_Date, num_sub, num_add, num_mul.
  intros Hd He H1 H2. split.
  - change (86400 * 1000) with 86400000.
    apply Z.leb_le in H1. now rewrite H1.
  - assert (ToNumber (or_else expiry (Num (Fin default))) = Fin e) as ->.
    { destruct He as [[-> ->] | [-> Hne]]; unfold or_else; simpl.
      - reflexivity.
      - apply Z.eqb_neq in Hne. now rewrite Hne. }
    apply Z.leb_le in H2. now rewrite H2.
Qed.

(** C8, as the code has it.  Root and leaf alike: with [t1] and [t2] the two
    readings of the clock taken while the certificate is assembled, and [e]
    the expiry in seconds (the option when it is a number other than zero, or
    365 days for a root and 90 days for a leaf when it is left out), and as
    long as both times are within what a [Date] can hold, notBefore is [t1]
    minus one day and notAfter is [t2] plus [e] seconds, both in
    milliseconds; and when [e] is positive and the clock did not run
    backwards between the readings, notBefore is earlier than notAfter. *)
Theorem validity_window (opts : Opts) (w : World) (e : Z) :
  let t1 := clock w (ticks w) in
  let t2 := clock w (S (ticks w)) in
  valid_time (t1 - 86400000) ->
  valid_time (t2 + e * 1000) ->
  (forall this w',
      expiry_is (365 * 86400) (opts_expiry opts) e ->
      constructor (Some opts) None w = (Returns this, w') ->
      let c := _cert this in
      contents w' (_pem this) = certificateToPem c /\
      notBefore c = Fin (t1 - 86400000) /\
      notAfter c = Fin (t2 + e * 1000) /\
      (0 < e -> t1 <= t2 -> num_lt (notBefore c) (notAfter c) = true)) /\
  (forall this name r w',
      expiry_is (90 * 86400) (opts_expiry opts) e ->
      authorize this name (Some opts) w = (Returns r, w') ->
      exists c,
        contents w' (issued_cert r) = certificateToPem c /\
        notBefore c = Fin (t1 - 86400000) /\
        notAfter c = Fin (t2 + e * 1000) /\
        (0 < e -> t1 <= t2 -> num_lt (notBefore c) (notAfter c) = true)).
Proof.
  intros t1 t2 V1 V2. split.
  - intros this w' He E. simpl in E. apply createCA_Returns in E.
    destruct E as (pk & sk & pk' & sk' & sig & _ & _ & _ & _ & _ & -> & ->).
    destruct (window ROOT_NOT_AFTER _ e t1 t2 ltac:(discriminate) He V1 V2)
      as [Hnb Hna].
    cbn [_cert _pem]. split; [apply contents_new2 |].
    unfold root_certificate, with_signature, build. cbn [notBefore notAfter].
    fold t1 t2. rewrite Hnb, Hna.
    split; [reflexivity |]. split; [reflexivity |].
    intros Hpos Hle. apply Z.ltb_lt. lia.
  - intros this name r w' He E. apply authorize_Returns in E.
    destruct E as (l & exts & pk & sk & pk' & sk' & sig & _ & _ & _ & _ & _
                   & _ & _ & _ & -> & ->).
    destruct (window CERT_NOT_AFTER _ e t1 t2 ltac:(discriminate) He V1 V2)
      as [Hnb Hna].
    eexists. cbn [issued_cert]. split; [apply contents_new2 |].
    unfold leaf_certificate, with_signature, build. cbn [notBefore notAfter].
    fold t1 t2. rewrite Hnb, Hna.
    split; [reflexivity |]. split; [reflexivity |].
    intros Hpos Hle. apply Z.ltb_lt. lia.
Qed.

End Validity.

Section ValidityRun.
#[local] Existing Instance Standin.lib.

(** With the stand-in library: a root with the default expiry, and a leaf
    with the default expiry issued by it. *)
Lemma validity_window_witness :
  (exists this w',
      constructor (H := Standin.lib) (Some no_opts) None Standin.world
        = (Returns this, w') /\
      notBefore (_cert this) = Fin (1700000000000 - 86400000) /\
      notAfter (_cert this) = Fin (1700000000001 + 365 * 86400 * 1000) /\
      num_lt (notBefore (_cert this)) (notAfter (_cert this)) = true) /\
  (exists r w' c,
      authorize (H := Standin.lib) Standin.root (Name (Str "localhost"))
        (Some no_opts) Standin.world1 = (Returns r, w') /\
      contents w' (issued_cert r) = certificateToPem c /\
      notBefore c = Fin (1700000000003 - 86400000) /\
      notAfter c = Fin (1700000000004 + 90 * 86400 * 1000) /\
      num_lt (notBefore c) (notAfter c) = true).
Proof.
  split.
  - eexists. eexists. split; [vm_compute; reflexivity |].
    destruct (validity_window (H := Standin.lib) no_opts Standin.world
                (365 * 86400)
                ltac:(unfold valid_time; vm_compute; discriminate)
                ltac:(unfold valid_time; vm_compute; discriminate)) as [T _].
    destruct (T _ _ ltac:(left; split; reflexivity)
                ltac:(vm_compute; reflexivity)) as (_ & T2 & T3 & T4).
    split; [exact T2 |]. split; [exact T3 |].
    apply T4; vm_compute; [reflexivity | discriminate].
  - destruct (validity_window (H := Standin.lib) no_opts Standin.world1
                (90 * 86400)
                ltac:(unfold valid_time; vm_compute; discriminate)
                ltac:(unfold valid_time; vm_compute; discriminate)) as [_ T].
    eexists. eexists.
    destruct (T Standin.root (Name (Str "localhost")) _ _
                ltac:(left; split; reflexivity)
                ltac:(vm_compute; reflexivity)) as (c & T1 & T2 & T3 & T4).
    exists c. split; [vm_compute; reflexivity |].
    split; [exact T1 |]. split; [exact T2 |]. split; [exact T3 |].
    apply T4; vm_compute; [reflexivity | discriminate].
Defined.

(** The stand-in creating roots with an expiry of ten million million
    seconds and with an expiry of zero.  With the first, the time of
    notAfter is beyond what a [Date] can hold: the root is created all the
    same, its notAfter is an invalid date, not the clock reading plus the
    expiry, and notBefore is not earlier than it.  With the second, notAfter
    is the clock reading plus 365 days, not plus zero. *)
Lemma validity_window_fails_for_huge_and_zero_expiry :
  (exists this w',
      constructor
        (Some {| opts_name := Undefined; opts_bits := Undefined;
                 opts_expiry := Num (Fin 10000000000000) |})
        None Standin.world = (Returns this, w') /\
      0 < 10000000000000 /\
      notBefore (_cert this) = Fin (1700000000000 - 86400000) /\
      notAfter (_cert this) = NaN /\
      notAfter (_cert this) <> Fin (1700000000001 + 10000000000000 * 1000) /\
      num_lt (notBefore (_cert this)) (notAfter (_cert this)) = false) /\
  (exists this w',
      constructor
        (Some {| opts_name := Undefined; opts_bits := Undefined;
                 opts_expiry := Num (Fin 0) |})
        None Standin.world = (Returns this, w') /\
      notAfter (_cert this) = Fin (1700000000001 + 365 * 86400 * 1000) /\
      notAfter (_cert this) <> Fin (1700000000001 + 0 * 1000)).
Proof.
  split.
  - eexists. eexists. split; [vm_compute; reflexivity |].
    split; [reflexivity |]. split; [vm_compute; reflexivity |].
    split; [vm_compute; reflexivity |].
    split; [vm_compute; discriminate | vm_compute; reflexivity].
  - eexists. eexists. split; [vm_compute; reflexivity |].
    split; [vm_compute; reflexivity | vm_compute; discriminate].
Qed.

End ValidityRun.

(** ** Options that are falsy *)

Section Defaults.
Context `{Forge}.

(** C10.  Presence of [bits] and [expiry] is tested by truthiness, in the
    constructor and in [authorize] alike: with a falsy value there (0 is
    one) the run is the very run obtained with the property left out, and
    the very run obtained with the default written out (2048 bits; 365 days
    for a root, 90 days for a leaf).  So neither a zero expiry nor a zero key
    size can be asked for. *)
Theorem falsy_options_are_defaults (name bits expiry fb fe : prim)
    (this : MutualTLS) (names : names) (w : World) :
  truthy fb = false ->
  truthy fe = false ->
  let given b e := Some {| opts_name := name; opts_bits := b; opts_expiry := e |} in
  truthy (Num (Fin 0)) = false /\
  (constructor (given fb expiry) None w = constructor (given Undefined expiry) None w /\
   constructor (given fb expiry) None w
     = constructor (given (Num (Fin 2048)) expiry) None w) /\
  (constructor (given bits fe) None w = constructor (given bits Undefined) None w /\
   constructor (given bits fe) None w
     = constructor (given bits (Num (Fin (365 * 86400)))) None w) /\
  (authorize this names (given fb expiry) w
     = authorize this names (given Undefined expiry) w /\
   authorize this names (given fb expiry) w
     = authorize this names (given (Num (Fin 2048)) expiry) w) /\
  (authorize this names (given bits fe) w
     = authorize this names (given bits Undefined) w /\
   authorize this names (given bits fe) w
     = authorize this names (given bits (Num (Fin (90 * 86400)))) w).
Proof.
  intros Hb He given. subst given.
  unfold constructor, _createCA, authorize. cbn [opts_name opts_bits opts_expiry].
  assert (forall d, or_else fb d = d) as Eb
    by (intros d; unfold or_else; now rewrite Hb).
  assert (forall d, or_else fe d = d) as Ee
    by (intros d; unfold or_else; now rewrite He).
  rewrite !Eb, !Ee.
  repeat split; reflexivity.
Qed.

End Defaults.

Section DefaultsRun.
#[local] Existing Instance Standin.lib.

(** Asking the stand-in for a root, and for a leaf, with zero bits and a zero
    expiry gives what asking with no options gives. *)
Lemma falsy_options_are_defaults_witness :
  let zero :=
    Some {| opts_name := Undefined; opts_bits := Num (Fin 0);
            opts_expiry := Num (Fin 0) |} in
  constructor zero None Standin.world = Standin.created /\
  authorize Standin.root (Name (Str "localhost")) zero Standin.world1
    = authorize Standin.root (Name (Str "localhost")) (Some no_opts)
        Standin.world1.
Proof.
  pose proof (falsy_options_are_defaults (H := Standin.lib)
                Undefined (Num (Fin 0)) (Num (Fin 0))
                (Num (Fin 0)) (Num (Fin 0)) Standin.root
                (Name (Str "localhost"))) as T.
  split.
  - destruct (T Standin.world eq_refl eq_refl) as (_ & _ & [T1 _] & _).
    rewrite T1. vm_compute. reflexivity.
  - destruct (T Standin.world1 eq_refl eq_refl) as (_ & _ & _ & _ & [T1 _]).
    rewrite T1.
    destruct (falsy_options_are_defaults (H := Standin.lib)
                Undefined (Num (Fin 0)) Undefined
                (Num (Fin 0)) (Num (Fin 0)) Standin.root
                (Name (Str "localhost")) Standin.world1 eq_refl eq_refl)
      as (_ & _ & _ & [T2 _] & _).
    exact T2.
Defined.

End DefaultsRun.

(** ** Subject alternative names *)

Lemma digit_or_dot_spec c :
  digit_or_dot c = true <->
  (48 <= nat_of_ascii c <= 57)%nat \/ c = "."%char.
Proof.
  unfold digit_or_dot. rewrite orb_true_iff, andb_true_iff.
  rewrite !Nat.leb_le, Nat.eqb_eq. split.
  - intros [Hd | Hdot]; [left; exact Hd | right].
    rewrite <- (ascii_nat_embedding c), Hdot. reflexivity.
  - intros [Hd | ->]; [left; exact Hd | right; reflexivity].
Qed.

Lemma all_chars_spec p s :
  all_chars p s = true <->
  forall c, In c (list_ascii_of_string s) -> p c = true.
Proof.
  induction s as [| a s IH]; simpl.
  - split; [intros _ c [] | reflexivity].
  - rewrite andb_true_iff, IH. split.
    + intros [Ha Hs] c [<- | Hc]; auto.
    + intros Hall. split; [apply Hall; now left | intros c Hc; apply Hall; now right].
Qed.

(** The test in [getAltName] accepts exactly those names. *)
Lemma matches_digits_dots_spec s :
  matches_digits_dots s = true <-> only_digits_and_dots s.
Proof.
  unfold only_digits_and_dots. destruct s as [| a s].
  - simpl. split; [discriminate | intros [Hne _]; now destruct Hne].
  - change (matches_digits_dots (String a s))
      with (all_chars digit_or_dot (String a s)).
    rewrite all_chars_spec. split.
    + intros Hall. split; [discriminate |].
      intros c Hc. apply digit_or_dot_spec. auto.
    + intros [_ Hall] c Hc. apply digit_or_dot_spec. auto.
Qed.

Lemma getAltName_ip s :
  only_digits_and_dots s ->
  getAltName s = {| alt_type := 7; alt_ip := Some s; alt_value := None |}.
Proof.
  intros Hs. apply matches_digits_dots_spec in Hs.
  unfold getAltName. now rewrite Hs.
Qed.

Lemma getAltName_dns s :
  ~ only_digits_and_dots s ->
  getAltName s = {| alt_type := 2; alt_ip := None; alt_value := Some s |}.
Proof.
  intros Hs. unfold getAltName.
  destruct (matches_digits_dots s) eqn:E; [| reflexivity].
  apply matches_digits_dots_spec in E. contradiction.
Qed.

Section AltNames.
Context `{Forge}.

(** C7.  When [authorize] issues a certificate for the sequence of names [l]
    (a bare string standing for the sequence of that one string), the
    certificate has one subjectAltName extension, with one entry per name, in
    the order of the names: at each position, an IP entry (type 7) carrying
    the name when the name consists of digits and dots only, a DNS entry
    (type 2) carrying the name otherwise; and the commonName of the subject
    is the first name. *)
Theorem subject_alt_names_follow_names (this : MutualTLS) (name : names)
    (opts : Opts) (w : World) (r : IssuedCertificate) (w' : World) :
  authorize this name (Some opts) w = (Returns r, w') ->
  exists (l : list string) (c : Certificate PublicKey) (alts : list altName),
    (name = Names l \/ exists s, name = Name (Str s) /\ l = [s]) /\
    contents w' (issued_cert r) = certificateToPem c /\
    In (subjectAltName alts) (extensions c) /\
    (forall alts', In (subjectAltName alts') (extensions c) -> alts' = alts) /\
    length alts = length l /\
    (forall (i : nat) (n : string), l !! i = Some n ->
       (only_digits_and_dots n ->
        alts !! i = Some {| alt_type := 7; alt_ip := Some n; alt_value := None |}) /\
       (~ only_digits_and_dots n ->
        alts !! i = Some {| alt_type := 2; alt_ip := None; alt_value := Some n |})) /\
    (forall first rest, l = first :: rest ->
       subject c = [ {| attr_name := "commonName"; attr_value := Str first |} ]).
Proof.
  intros E. apply authorize_Returns in E.
  destruct E as (l & exts & pk & sk & pk' & sk' & sig & _ & Hl & Hexts & _ & _
                 & _ & _ & _ & -> & ->).
  simpl in Hexts. injection Hexts as <-.
  exists l. eexists. exists (map getAltName l).
  split.
  { destruct name as [p | l0]; simpl in Hl.
    - destruct p; try discriminate Hl. injection Hl as <-. right. eauto.
    - injection Hl as <-. now left. }
  cbn [issued_cert]. split; [apply contents_new2 |].
  unfold leaf_certificate, with_signature, build. cbn [extensions subject].
  split; [simpl; tauto |].
  split.
  { intros alts' Hin. simpl in Hin.
    repeat (destruct Hin as [Hin | Hin]; [discriminate Hin |]).
    destruct Hin as [Hin | []]. now injection Hin. }
  split; [apply length_map |].
  split.
  { intros i n Hn. rewrite list_lookup_fmap, Hn. simpl. split; intros Hd.
    - now rewrite getAltName_ip.
    - now rewrite getAltName_dns. }
  intros first rest ->. reflexivity.
Qed.

End AltNames.

Section AltNamesRun.
#[local] Existing Instance Standin.lib.

(** The stand-in issuing a certificate for a host name and an address. *)
Lemma subject_alt_names_follow_names_witness :
  exists r w' c,
    authorize Standin.root (Names ["localhost"; "127.0.0.1"]) (Some no_opts)
      Standin.world1 = (Returns r, w') /\
    contents w' (issued_cert r) = certificateToPem c /\
    In (subjectAltName
          [ {| alt_type := 2; alt_ip := None; alt_value := Some "localhost" |};
            {| alt_type := 7; alt_ip := Some "127.0.0.1"; alt_value := None |} ])
       (extensions c) /\
    subject c = [ {| attr_name := "commonName"; attr_value := Str "localhost" |} ].
Proof.
  eexists. eexists.
  destruct (subject_alt_names_follow_names (H := Standin.lib) Standin.root
              (Names ["localhost"; "127.0.0.1"]) no_opts Standin.world1 _ _
              ltac:(vm_compute; reflexivity))
    as (l & c & alts & Hl & Hc & Hin & _ & Hlen & Hentries & Hcn).
  exists c. split; [vm_compute; reflexivity |].
  assert (l = ["localhost"; "127.0.0.1"]) as ->.
  { destruct Hl as [Hl | (s & Hl & _)]; [now injection Hl | discriminate Hl]. }
  split; [exact Hc |]. split; [| now apply (Hcn "localhost" ["127.0.0.1"])].
  destruct (Hentries 0%nat "localhost" eq_refl) as [_ H0].
  destruct (Hentries 1%nat "127.0.0.1" eq_refl) as [H1 _].
  assert (~ only_digits_and_dots "localhost") as N0.
  { intros D. apply matches_digits_dots_spec in D. discriminate D. }
  assert (only_digits_and_dots "127.0.0.1") as D1
    by (now apply matches_digits_dots_spec).
  specialize (H0 N0). specialize (H1 D1).
  destruct alts as [| a0 [| a1 [| a2 alts]]]; try discriminate Hlen.
  simpl in H0, H1. injection H0 as ->. injection H1 as ->. exact Hin.
Defined.

End AltNamesRun.

(** ** Restoring an authority *)

Lemma resolve_grow w v (l : list string) c ti e d :
  exists_in w v ->
  resolve {| heap := (heap w ++ l)%list; clock := c; ticks := ti;
             entropy := e; draws := d |} v = resolve w v.
Proof.
  destruct v as [p | b]; simpl; [reflexivity |].
  intros Hb. f_equal. destruct w as [h c0 ti0 e0 d0]. simpl in *.
  now apply contents_old.
Qed.

Lemma Buffer_from_Returns v w l w' :
  Buffer_from v w = (Returns l, w') ->
  exists s, resolve w v = Text s /\
            l = length (heap w) /\
            w' = set_heap (heap w ++ [s]) w.
Proof.
  unfold Buffer_from. destruct (resolve w v) as [s | p]; intros E.
  - inversion E. eauto.
  - discriminate E.
Qed.

Section Restore.
Context `{Forge}.

Lemma privateToPublicKey_Returns v w l w' :
  privateToPublicKey v w = (Returns l, w') ->
  exists sk,
    privateKeyFromPem (resolve w v) = Some sk /\
    l = length (heap w) /\
    w' = set_heap
           (heap w ++ [publicKeyToPem (rsa_setPublicKey (key_n sk) (key_e sk))])
           w.
Proof.
  unfold privateToPublicKey. intros E. step E. step E.
  apply Buffer_from_text in E. destruct E as [-> ->]. eauto.
Qed.

(** A restoration that was given a private key and a public key. *)
Lemma loadCA_supplied root w this w' :
  root_keyPair root = None ->
  truthy_val (root_publicKey root) = true ->
  exists_in w (root_key root) ->
  exists_in w (root_ca root) ->
  _loadCA root w = (Returns this, w') ->
  exists spub skey cert,
    resolve w (root_publicKey root) = Text spub /\
    resolve w (root_key root) = Text skey /\
    certificateFromPem (resolve w (root_ca root)) = Some cert /\
    this = {| _keyPair := {| kp_publicKey := length (heap w);
                             kp_privateKey := S (length (heap w)) |};
              _cert := cert;
              _pem := S (S (length (heap w))) |} /\
    w' = set_heap (heap w ++ [spub; skey; certificateToPem cert]) w.
Proof.
  intros Hkp Hpub Vkey Vca. unfold _loadCA, toKeyPair. rewrite Hkp, Hpub.
  destruct (truthy_val (root_ca root)); [| discriminate].
  destruct (truthy_val (root_key root)); [| discriminate].
  simpl. intros E.
  step E. rename Hs into K.
  step K.
  step K. apply Buffer_from_Returns in Hs. destruct Hs as (spub & Rpub & -> & ->).
  step K. apply Buffer_from_Returns in Hs. destruct Hs as (skey & Rkey & -> & ->).
  apply ret_Returns in K. destruct K as [-> ->].
  step E. step E. step E. apply ret_Returns in E. destruct E as [-> ->].
  unfold set_heap in *. cbn [heap clock ticks entropy draws] in *.
  rewrite resolve_grow in Rkey by assumption.
  rewrite <- app_assoc in Hs. rewrite resolve_grow in Hs by assumption.
  exists spub, skey, a. repeat split; try assumption.
  - f_equal; [f_equal |]; rewrite !length_app; simpl; lia.
  - rewrite <- !app_assoc. reflexivity.
Qed.

(** A restoration that was given a private key only. *)
Lemma loadCA_derived root w this w' :
  root_keyPair root = None ->
  truthy_val (root_publicKey root) = false ->
  exists_in w (root_key root) ->
  exists_in w (root_ca root) ->
  _loadCA root w = (Returns this, w') ->
  exists sk skey cert,
    let derived := publicKeyToPem (rsa_setPublicKey (key_n sk) (key_e sk)) in
    privateKeyFromPem (resolve w (root_key root)) = Some sk /\
    resolve w (root_key root) = Text skey /\
    certificateFromPem (resolve w (root_ca root)) = Some cert /\
    this = {| _keyPair := {| kp_publicKey := S (length (heap w));
                             kp_privateKey := S (S (length (heap w))) |};
              _cert := cert;
              _pem := S (S (S (length (heap w)))) |} /\
    w' = set_heap (heap w ++ [derived; derived; skey; certificateToPem cert]) w.
Proof.
  intros Hkp Hpub Vkey Vca. unfold _loadCA, toKeyPair. rewrite Hkp, Hpub.
  destruct (truthy_val (root_ca root)); [| discriminate].
  destruct (truthy_val (root_key root)); [| discriminate].
  simpl. intros E.
  step E. rename Hs into K.
  step K. step Hs.
  apply privateToPublicKey_Returns in Hs0. destruct Hs0 as (sk & Rsk & -> & ->).
  apply ret_Returns in Hs. destruct Hs as [-> ->].
  step K.
  step K. apply Buffer_from_Returns in Hs. destruct Hs as (skey & Rkey & -> & ->).
  apply ret_Returns in K. destruct K as [-> ->].
  step E. step E. step E. apply ret_Returns in E. destruct E as [-> ->].
  unfold set_heap in *. cbn [heap clock ticks entropy draws] in *.
  rewrite contents_new0 in *.
  rewrite <- app_assoc in Rkey. rewrite resolve_grow in Rkey by assumption.
  rewrite <- !app_assoc in Hs. rewrite resolve_grow in Hs by assumption.
  exists sk, skey, a. cbv zeta. repeat split; try assumption.
  - f_equal; [f_equal |]; rewrite !length_app; simpl; lia.
  - rewrite <- !app_assoc. reflexivity.
Qed.

End Restore.

Section RestoreRequirements.
Context `{Forge}.

(** C6.  Restoring from [root]: without a certificate the call fails with
    "Missing certificate"; with a certificate but with neither a key pair nor
    a private key it fails with "Missing key pair or private key"; and when a
    private key is given without a key pair, a restoration that succeeds
    holds a copy of that private key, together with a copy of the public key
    that was supplied, or, when none was, the public key derived from the
    private key ([privateToPublicKey]). *)
Theorem restore_requirements (root : Root) (w : World) :
  exists_in w (root_key root) ->
  exists_in w (root_ca root) ->
  (truthy_val (root_ca root) = false ->
   from (Some root) w = (Throws MissingCertificateError, w)) /\
  (truthy_val (root_ca root) = true ->
   root_keyPair root = None -> truthy_val (root_key root) = false ->
   from (Some root) w = (Throws MissingKeyError, w)) /\
  (root_keyPair root = None ->
   forall this w', from (Some root) w = (Returns this, w') ->
     exists key_text,
       resolve w (root_key root) = Text key_text /\
       contents w' (kp_privateKey (_keyPair this)) = key_text /\
       (truthy_val (root_publicKey root) = true ->
        resolve w (root_publicKey root)
          = Text (contents w' (kp_publicKey (_keyPair this)))) /\
       (truthy_val (root_publicKey root) = false ->
        exists sk,
          privateKeyFromPem (Text key_text) = Some sk /\
          contents w' (kp_publicKey (_keyPair this))
            = publicKeyToPem (rsa_setPublicKey (key_n sk) (key_e sk)))).
Proof.
  intros Vkey Vca. unfold from, constructor. split; [| split].
  - intros Hca. unfold _loadCA. now rewrite Hca.
  - intros Hca Hkp Hkey. unfold _loadCA. now rewrite Hca, Hkp, Hkey.
  - intros Hkp this w' E.
    destruct (truthy_val (root_publicKey root)) eqn:Hpub.
    + apply loadCA_supplied in E; try assumption.
      destruct E as (spub & skey & cert & Rpub & Rkey & _ & -> & ->).
      exists skey. unfold set_heap. cbn [_keyPair kp_publicKey kp_privateKey].
      split; [exact Rkey |]. split; [apply contents_new1 |].
      split; [| discriminate].
      intros _. now rewrite contents_new0.
    + apply loadCA_derived in E; try assumption.
      destruct E as (sk & skey & cert & Rsk & Rkey & _ & -> & ->).
      exists skey. unfold set_heap. cbn [_keyPair kp_publicKey kp_privateKey].
      split; [exact Rkey |]. split; [apply contents_new2 |].
      split; [discriminate |].
      intros _. exists sk. rewrite Rkey in Rsk. split; [exact Rsk |].
      apply contents_new1.
Qed.

End RestoreRequirements.

Section RestoreRequirementsRun.
#[local] Existing Instance Standin.lib.

(** With the stand-in: a restoration from the root's key alone, from its
    certificate alone, and from both. *)
Lemma restore_requirements_witness :
  from (Some {| root_ca := Prim Undefined; root_key := Buf 1%nat;
                root_publicKey := Prim Undefined; root_keyPair := None |})
    Standin.world1 = (Throws MissingCertificateError, Standin.world1) /\
  from (Some {| root_ca := Buf 2%nat; root_key := Prim Undefined;
                root_publicKey := Prim Undefined; root_keyPair := None |})
    Standin.world1 = (Throws MissingKeyError, Standin.world1) /\
  exists this w',
    from (Some {| root_ca := Buf 2%nat; root_key := Buf 1%nat;
                  root_publicKey := Prim Undefined; root_keyPair := None |})
      Standin.world1 = (Returns this, w') /\
    contents w' (kp_privateKey (_keyPair this)) = contents Standin.world1 1%nat /\
    exists sk,
      privateKeyFromPem (Text (contents Standin.world1 1%nat)) = Some sk /\
      contents w' (kp_publicKey (_keyPair this))
        = publicKeyToPem (rsa_setPublicKey (key_n sk) (key_e sk)).
Proof.
  split; [| split].
  - destruct (restore_requirements
                {| root_ca := Prim Undefined; root_key := Buf 1%nat;
                   root_publicKey := Prim Undefined; root_keyPair := None |}
                Standin.world1 ltac:(vm_compute; lia) I) as (T & _).
    exact (T eq_refl).
  - destruct (restore_requirements
                {| root_ca := Buf 2%nat; root_key := Prim Undefined;
                   root_publicKey := Prim Undefined; root_keyPair := None |}
                Standin.world1 I ltac:(vm_compute; lia)) as (_ & T & _).
    exact (T eq_refl eq_refl eq_refl).
  - eexists. eexists. split; [vm_compute; reflexivity |].
    destruct (proj2 (proj2 (restore_requirements
                {| root_ca := Buf 2%nat; root_key := Buf 1%nat;
                   root_publicKey := Prim Undefined; root_keyPair := None |}
                Standin.world1 ltac:(vm_compute; lia) ltac:(vm_compute; lia)))
                eq_refl _ _ ltac:(vm_compute; reflexivity))
      as (key_text & Rkey & Hpriv & _ & Hder).
    injection Rkey as <-.
    split; [exact Hpriv |]. exact (Hder eq_refl).
Defined.

End RestoreRequirementsRun.

(** ** Round trip through [from] *)

Section RoundTrip.
Context `{Forge}.

(** Restoring from two buffers that hold a private key and a certificate
    which the library can parse succeeds, and allocates four buffers: the
    derived public key, its copy, the copy of the private key, and the PEM of
    the parsed certificate. *)
Lemma bind_run {A B} (m : M A) (k : A -> M B) w a w1 :
  m w = (Returns a, w1) -> bind m k w = k a w1.
Proof.
  unfold bind. now intros ->.
Qed.

Lemma Buffer_from_run v w s :
  resolve w v = Text s ->
  Buffer_from v w = (Returns (length (heap w)), set_heap (heap w ++ [s]) w).
Proof.
  unfold Buffer_from. now intros ->.
Qed.




End RoundTrip.

Section RoundTripRun.
#[local] Existing Instance Standin.lib.


End RoundTripRun.

(** ** The accessors *)

Section Accessors.
Context `{Forge}.

Lemma contents_Buffer_set (l : loc) (i : nat) (c : ascii) (w : World) :
  contents (Buffer_set l i c w) l
  = string_of_list_ascii (<[i := c]> (list_ascii_of_string (contents w l))).
Proof.
  unfold Buffer_set, contents.
  destruct (heap w !! l) as [s |] eqn:E.
  - unfold set_heap. cbn [heap].
    rewrite list_lookup_insert_eq; [reflexivity |].
    now apply lookup_lt_Some in E.
  - rewrite E. now destruct i.
Qed.

(** C1, as the code has it.  [key] and [ca] return the very buffers the
    authority stores, on every read and without allocating; a byte written
    into a returned buffer is therefore what the next read of the accessor
    shows. *)
Theorem accessors_return_stored_buffers (this : MutualTLS) (w : World)
    (i : nat) (c : ascii) :
  let k := kp_privateKey (_keyPair this) in
  let p := _pem this in
  key this w = (Returns k, w) /\
  ca this w = (Returns p, w) /\
  (let w' := Buffer_set k i c w in
   key this w' = (Returns k, w') /\
   contents w' k
     = string_of_list_ascii (<[i := c]> (list_ascii_of_string (contents w k)))) /\
  (let w' := Buffer_set p i c w in
   ca this w' = (Returns p, w') /\
   contents w' p
     = string_of_list_ascii (<[i := c]> (list_ascii_of_string (contents w p)))).
Proof.
  cbv zeta. repeat split; try reflexivity; apply contents_Buffer_set.
Qed.

End Accessors.

Section AccessorsRun.
#[local] Existing Instance Standin.lib.

(** The stand-in's fresh root: [key] and [ca] hand out the stored buffers,
    and overwriting the first byte of what was handed out changes what the
    next read returns. *)
Lemma accessors_are_not_defensive_copies :
  constructor (Some no_opts) None Standin.world
    = (Returns Standin.root, Standin.world1) /\
  ~ defensive_copy key (fun this => kp_privateKey (_keyPair this))
      Standin.root Standin.world1 /\
  ~ defensive_copy ca (fun this => _pem this) Standin.root Standin.world1 /\
  contents Standin.world1 1%nat = "PRIVATE KEY 5cedc835" /\
  contents (Buffer_set 1%nat 0 "X" Standin.world1) 1%nat = "XRIVATE KEY 5cedc835".
Proof.
  split; [vm_compute; reflexivity |]. split; [| split].
  - intros D.
    destruct (D 1%nat Standin.world1 eq_refl) as [_ D2].
    specialize (D2 0%nat "X"%char 1%nat _ eq_refl).
    vm_compute in D2. discriminate D2.
  - intros D.
    destruct (D 2%nat Standin.world1 eq_refl) as [_ D2].
    specialize (D2 0%nat "X"%char 2%nat _ eq_refl).
    vm_compute in D2. discriminate D2.
  - split; vm_compute; reflexivity.
Qed.

End AccessorsRun.

(** ** Serial numbers *)

Lemma is_hex_not_dash c : is_hex c = true -> Ascii.eqb c "-" = false.
Proof.
  intros Hc. destruct (Ascii.eqb c "-") eqn:E; [| reflexivity].
  apply Ascii.eqb_eq in E. subst c. discriminate Hc.
Qed.

Lemma digit_value_lt c : is_hex c = true -> (digit_value c < 16)%N.
Proof.
  unfold is_hex, digit_value. intros Hc.
  apply orb_true_iff in Hc. rewrite !andb_true_iff, !Nat.leb_le in Hc.
  destruct (N.leb_spec (N.of_nat (nat_of_ascii c)) 57); lia.
Qed.

Lemma append_cons c a b : String c a +:+ b = String c (a +:+ b).
Proof. reflexivity. Qed.

Lemma append_empty b : "" +:+ b = b.
Proof. reflexivity. Qed.

Lemma length_append a b :
  String.length (a +:+ b) = (String.length a + String.length b)%nat.
Proof.
  induction a as [| c a IH]; [reflexivity |].
  rewrite append_cons. simpl. now rewrite IH.
Qed.

Lemma hex_group_spec n : forall s r,
  hex_group n s = Some r ->
  exists g, s = g +:+ r /\ String.length g = n /\ all_chars is_hex g = true.
Proof.
  induction n as [| n IH]; intros s r E; simpl in E.
  - injection E as <-. exists "". auto.
  - destruct s as [| c s]; [discriminate E |].
    destruct (is_hex c) eqn:Hc; [| discriminate E].
    destruct (IH _ _ E) as (g & -> & Hlen & Hall).
    exists (String c g). rewrite append_cons. simpl. rewrite Hc, Hlen. auto.
Qed.

Lemma remove_dashes_hex g r :
  all_chars is_hex g = true ->
  remove_dashes (g +:+ r) = g +:+ remove_dashes r.
Proof.
  induction g as [| c g IH]; [reflexivity |].
  rewrite !append_cons. simpl.
  intros Hg. apply andb_true_iff in Hg. destruct Hg as [Hc Hg].
  rewrite (is_hex_not_dash _ Hc), IH by assumption. reflexivity.
Qed.

Lemma all_chars_append p a b :
  all_chars p (a +:+ b) = all_chars p a && all_chars p b.
Proof.
  induction a as [| c a IH]; [reflexivity |].
  rewrite append_cons. simpl. now rewrite IH, andb_assoc.
Qed.

Lemma hex_groups_spec sizes : forall s,
  hex_groups sizes s = true ->
  String.length (remove_dashes s) = list_sum sizes /\
  all_chars is_hex (remove_dashes s) = true.
Proof.
  induction sizes as [| n sizes IH]; intros s E; [discriminate E |].
  destruct sizes as [| m sizes].
  - simpl in E. destruct (hex_group n s) as [[| c r] |] eqn:G; try discriminate E.
    destruct (hex_group_spec _ _ _ G) as (g & -> & Hlen & Hall).
    rewrite remove_dashes_hex by assumption. simpl remove_dashes.
    rewrite length_append, all_chars_append, Hall, Hlen. simpl.
    split; [lia | reflexivity].
  - change (hex_groups (n :: m :: sizes) s)
      with (match hex_group n s with
            | Some (String c s') => Ascii.eqb c "-" && hex_groups (m :: sizes) s'
            | _ => false
            end) in E.
    destruct (hex_group n s) as [[| c r] |] eqn:G; try discriminate E.
    apply andb_true_iff in E. destruct E as [Hc E].
    destruct (hex_group_spec _ _ _ G) as (g & -> & Hlen & Hall).
    destruct (IH _ E) as [IHlen IHall].
    rewrite remove_dashes_hex by assumption.
    cbn [remove_dashes]. rewrite Hc.
    rewrite length_append, all_chars_append, Hall, Hlen, IHlen, IHall.
    split; reflexivity.
Qed.

Lemma hex_value_bound s : forall acc,
  all_chars is_hex s = true ->
  (hex_value acc s < (acc + 1) * 16 ^ N.of_nat (String.length s))%N.
Proof.
  induction s as [| c s IH]; intros acc Hs; simpl.
  - change (N.of_nat 0) with 0%N. rewrite N.pow_0_r. lia.
  - apply andb_true_iff in Hs. destruct Hs as [Hc Hs].
    pose proof (digit_value_lt _ Hc) as Hd.
    specialize (IH (16 * acc + digit_value c)%N Hs).
    rewrite Nat2N.inj_succ, N.pow_succ_r by lia.
    eapply N.lt_le_trans; [exact IH |].
    rewrite (N.mul_comm 16), N.mul_assoc.
    apply N.mul_le_mono_r. lia.
Qed.

Lemma append_inj_length a : forall a' b b',
  String.length a = String.length a' ->
  a +:+ b = a' +:+ b' -> a = a' /\ b = b'.
Proof.
  induction a as [| c a IH]; intros [| c' a'] b b' Hlen E;
    try discriminate Hlen.
  - auto.
  - rewrite !append_cons in E. injection E as -> E.
    injection Hlen as Hlen. destruct (IH _ _ _ Hlen E) as [-> ->]. auto.
Qed.

(** Two UUIDs that are equal once their dashes are removed are equal. *)
Lemma hex_groups_inj sizes : forall u v,
  hex_groups sizes u = true -> hex_groups sizes v = true ->
  remove_dashes u = remove_dashes v -> u = v.
Proof.
  induction sizes as [| n sizes IH]; intros u v Eu Ev E; [discriminate Eu |].
  destruct sizes as [| m sizes].
  - simpl in Eu, Ev.
    destruct (hex_group n u) as [[| cu ru] |] eqn:Gu; try discriminate Eu.
    destruct (hex_group n v) as [[| cv rv] |] eqn:Gv; try discriminate Ev.
    destruct (hex_group_spec _ _ _ Gu) as (gu & -> & Lu & Au).
    destruct (hex_group_spec _ _ _ Gv) as (gv & -> & Lv & Av).
    rewrite !remove_dashes_hex in E by assumption.
    destruct (append_inj_length gu gv _ _ ltac:(congruence) E) as [-> _].
    reflexivity.
  - change (hex_groups (n :: m :: sizes) u)
      with (match hex_group n u with
            | Some (String c s') => Ascii.eqb c "-" && hex_groups (m :: sizes) s'
            | _ => false
            end) in Eu.
    change (hex_groups (n :: m :: sizes) v)
      with (match hex_group n v with
            | Some (String c s') => Ascii.eqb c "-" && hex_groups (m :: sizes) s'
            | _ => false
            end) in Ev.
    destruct (hex_group n u) as [[| cu ru] |] eqn:Gu; try discriminate Eu.
    destruct (hex_group n v) as [[| cv rv] |] eqn:Gv; try discriminate Ev.
    apply andb_true_iff in Eu. destruct Eu as [Cu Eu].
    apply andb_true_iff in Ev. destruct Ev as [Cv Ev].
    apply Ascii.eqb_eq in Cu. apply Ascii.eqb_eq in Cv. subst cu cv.
    destruct (hex_group_spec _ _ _ Gu) as (gu & -> & Lu & Au).
    destruct (hex_group_spec _ _ _ Gv) as (gv & -> & Lv & Av).
    rewrite !remove_dashes_hex in E by assumption.
    cbn [remove_dashes] in E.
    change (Ascii.eqb "-" "-") with true in E. cbn iota in E.
    destruct (append_inj_length gu gv _ _ ltac:(congruence) E) as [-> E'].
    now rewrite (IH _ _ Eu Ev E').
Qed.

Section SerialNumber.
Context `{Forge}.

(** C5.  Given that the platform's [randomUUID] returns the textual form of a
    UUID, a call of the serial-number generator returns the UUID of its draw
    with the dashes removed: a string of exactly 32 hexadecimal digits, so a
    128-bit value, with no dash left in it.  The call consumes one draw of
    randomness and touches nothing else, and its result is determined by
    that draw alone: in any other world that delivers the same draw,
    whatever its buffers, clock or history, the generator returns the same
    string.  Nothing of the draw's UUID is lost: a call that returns the
    same serial number was given the same UUID by the platform. *)
Theorem serial_number_is_32_hex_digits (w : World) :
  is_uuid (randomUUID (entropy w (draws w))) = true ->
  exists s,
    generateSerialNumber w
      = (Returns s,
         {| heap := heap w; clock := clock w; ticks := ticks w;
            entropy := entropy w; draws := S (draws w) |}) /\
    s = remove_dashes (randomUUID (entropy w (draws w))) /\
    String.length s = 32%nat /\
    all_chars is_hex s = true /\
    (forall c, In c (list_ascii_of_string s) -> c <> "-"%char) /\
    (hex_value 0 s < 2 ^ 128)%N /\
    (forall w2, entropy w2 (draws w2) = entropy w (draws w) ->
       fst (generateSerialNumber w2) = Returns s) /\
    (forall w2,
       is_uuid (randomUUID (entropy w2 (draws w2))) = true ->
       fst (generateSerialNumber w2) = Returns s ->
       randomUUID (entropy w2 (draws w2)) = randomUUID (entropy w (draws w))).
Proof.
  intros U. pose proof U as U0.
  apply hex_groups_spec in U. destruct U as [Hlen Hall].
  exists (remove_dashes (randomUUID (entropy w (draws w)))).
  split; [reflexivity |]. split; [reflexivity |].
  split; [exact Hlen |]. split; [exact Hall |].
  split.
  { intros c Hc ->. rewrite all_chars_spec in Hall.
    specialize (Hall _ Hc). discriminate Hall. }
  split.
  { pose proof (hex_value_bound _ 0%N Hall) as B. rewrite Hlen in B.
    exact B. }
  split.
  { intros w2 E. unfold generateSerialNumber, bind, random, ret. simpl.
    now rewrite E. }
  intros w2 U2 E. unfold generateSerialNumber, bind, random, ret in E.
  simpl in E. injection E as E.
  exact (hex_groups_inj _ _ _ U2 U0 E).
Qed.

End SerialNumber.

Section SerialNumberRun.
#[local] Existing Instance Standin.lib.

(** A serial number drawn from the stand-in. *)
Lemma serial_number_is_32_hex_digits_witness :
  is_uuid (randomUUID (entropy Standin.world (draws Standin.world))) = true /\
  exists s,
    fst (generateSerialNumber Standin.world) = Returns s /\
    s = remove_dashes (randomUUID (entropy Standin.world (draws Standin.world))) /\
    String.length s = 32%nat /\
    all_chars is_hex s = true.
Proof.
  split; [vm_compute; reflexivity |].
  destruct (serial_number_is_32_hex_digits (H := Standin.lib) Standin.world
              ltac:(vm_compute; reflexivity))
    as (s & Hrun & Hs & Hlen & Hall & _).
  exists s. rewrite Hrun. auto.
Defined.

End SerialNumberRun.

(** ** The name guard of [authorize] *)

Lemma throws_only_bind {A B} P (m : M A) (k : A -> M B) :
  throws_only P m -> (forall a, throws_only P (k a)) ->
  throws_only P (bind m k).
Proof.
  unfold throws_only, bind. intros Hm Hk w e w'.
  destruct (m w) as [[a | e0] w1] eqn:E; intros T.
  - eapply Hk; eassumption.
  - inversion T; subst. eapply Hm; eassumption.
Qed.

Lemma throws_only_ret {A} P (a : A) : throws_only P (ret a).
Proof. intros w e w' T. discriminate T. Qed.

Lemma throws_only_read P v : throws_only P (read v).
Proof. intros w e w' T. discriminate T. Qed.

Lemma throws_only_Date_now P : throws_only P Date_now.
Proof. intros w e w' T. discriminate T. Qed.

Lemma throws_only_random P : throws_only P random.
Proof. intros w e w' T. discriminate T. Qed.

Lemma throws_only_text P s : throws_only P (Buffer_from (Prim (Str s))).
Proof. intros w e w' T. discriminate T. Qed.

Lemma throws_only_forge {A} (P : error -> Prop) (o : option A) :
  P ForgeError -> throws_only P (forge o).
Proof.
  intros HP w e w' T. unfold forge in T. destruct o; inversion T. exact HP.
Qed.

Lemma throws_only_throw {A} (P : error -> Prop) e :
  P e -> throws_only P (@throw A e).
Proof.
  intros HP w e' w' T. inversion T. now subst.
Qed.

Lemma throws_only_lift {A} (P : error -> Prop) (o : outcome A) :
  (forall e, o = Throws e -> P e) -> throws_only P (lift o).
Proof.
  intros HP w e w' T. inversion T. auto.
Qed.

Create HintDb throws.
#[export] Hint Resolve throws_only_ret throws_only_read throws_only_Date_now
  throws_only_random throws_only_text throws_only_forge throws_only_throw
  : throws.

Ltac throws :=
  repeat (intros; first
    [ apply throws_only_bind
    | solve [auto with throws] ]).

Section NameGuard.
Context `{Forge}.

(** [authorize] fails with "Common name is required" exactly when [name] is
    falsy; it treats a bare string as the array of that string. *)
Lemma authorize_guard (this : MutualTLS) (name : names) (opts : option Opts)
    (w : World) :
  (truthy_names name = false ->
   authorize this name opts w = (Throws MissingNameError, w)) /\
  (truthy_names name = true ->
   fst (authorize this name opts w) <> Throws MissingNameError) /\
  (forall s, authorize this (Name (Str s)) opts w
             = if truthy (Str s) then authorize this (Names [s]) opts w
               else (Throws MissingNameError, w)).
Proof.
  split; [| split].
  - intros Hn. unfold authorize. now rewrite Hn.
  - intros Hn Habs.
    destruct (authorize this name opts w) as [o w'] eqn:E. simpl in Habs. subst o.
    revert E. unfold authorize. rewrite Hn. cbn [negb].
    destruct opts as [opts |]; [| discriminate].
    assert (throws_only (fun e => e = ForgeError \/ e = TypeError)
              (authorize this name (Some opts))) as T.
    { unfold authorize. rewrite Hn. cbn [negb].
      unfold generateKeyPair, generateSerialNumber. throws.
      apply throws_only_lift. intros e.
      destruct (match name with Name (Str s) => Names [s] | _ => name end);
        simpl; [intros [= <-]; now right | discriminate]. }
    intros E. unfold authorize in T. rewrite Hn in T. cbn [negb] in T.
    destruct (T _ _ _ E) as [D | D]; discriminate D.
  - intros s. unfold authorize. cbn [truthy_names].
    destruct (truthy (Str s)); reflexivity.
Qed.

(** C2, at the empty array.  [authorize ([])] gets past the name guard: it
    never fails with "Common name is required".  When the library goes
    along, it returns a certificate whose commonName is [undefined] and
    whose subjectAltName is empty. *)
Theorem authorize_empty_sequence (this : MutualTLS) (opts : option Opts)
    (w : World) :
  truthy_names (Names []) = true /\
  match authorize this (Names []) opts w with
  | (Returns r, w') =>
      exists c,
        contents w' (issued_cert r) = certificateToPem c /\
        subject c = [ {| attr_name := "commonName"; attr_value := Undefined |} ] /\
        In (subjectAltName []) (extensions c)
  | (Throws e, _) => e <> MissingNameError
  end.
Proof.
  split; [reflexivity |].
  destruct (authorize this (Names []) opts w) as [[r | e] w'] eqn:E.
  - destruct opts as [opts |]; [| discriminate E].
    apply authorize_Returns in E.
    destruct E as (l & exts & pk & sk & pk' & sk' & sig & _ & Hl & Hexts & _ & _
                   & _ & _ & _ & -> & ->).
    simpl in Hl. injection Hl as <-. simpl in Hexts. injection Hexts as <-.
    eexists. cbn [issued_cert]. split; [apply contents_new2 |].
    split; [reflexivity |]. simpl. tauto.
  - intros ->.
    destruct (authorize_guard this (Names []) opts w) as (_ & G & _).
    apply (G eq_refl). now rewrite E.
Qed.

End NameGuard.

Section NameGuardRun.
#[local] Existing Instance Standin.lib.

(** With the stand-in, which like node-forge refuses an attribute without a
    value, [authorize ([])] gets as far as generating a key pair and drawing
    a serial number, and then fails inside the library. *)
Example authorize_empty_sequence_run :
  let run := authorize Standin.root (Names []) (Some no_opts) Standin.world1 in
  fst run = Throws ForgeError /\
  length (heap (snd run)) = (length (heap Standin.world1) + 2)%nat /\
  draws (snd run) = (draws Standin.world1 + 2)%nat.
Proof.
  vm_compute. repeat split.
Qed.

End NameGuardRun.

(** ** Issuer of an issued certificate *)

Section Issuer.
Context `{Forge}.


End Issuer.

Section IssuerRun.
#[local] Existing Instance Standin.lib.




End IssuerRun.

(** * Further properties of the code *)

(** ** Nothing is overwritten *)

Lemma extends_refl w : extends w w.
Proof.
  unfold extends. repeat split; try lia. exists []. now rewrite app_nil_r.
Qed.

Lemma extends_trans w1 w2 w3 : extends w1 w2 -> extends w2 w3 -> extends w1 w3.
Proof.
  intros ([l1 H1] & C1 & E1 & T1 & D1) ([l2 H2] & C2 & E2 & T2 & D2).
  unfold extends. repeat split; try congruence; try lia.
  exists (l1 ++ l2)%list. now rewrite H2, H1, app_assoc.
Qed.

Lemma extends_contents w w' (l : loc) :
  extends w w' -> (l < length (heap w))%nat -> contents w' l = contents w l.
Proof.
  intros ([l0 H0] & _) Hl. unfold contents. rewrite H0.
  now rewrite lookup_app_l.
Qed.

Lemma extends_length w w' :
  extends w w' -> (length (heap w) <= length (heap w'))%nat.
Proof.
  intros ([l0 H0] & _). rewrite H0, length_app. lia.
Qed.

Lemma allocates_only_ret {A} (a : A) : allocates_only (ret a).
Proof. intros w. apply extends_refl. Qed.

Lemma allocates_only_throw {A} e : allocates_only (@throw A e).
Proof. intros w. apply extends_refl. Qed.

Lemma allocates_only_lift {A} (o : outcome A) : allocates_only (lift o).
Proof. intros w. apply extends_refl. Qed.

Lemma allocates_only_forge {A} (o : option A) : allocates_only (forge o).
Proof. intros w. unfold forge. destruct o; apply extends_refl. Qed.

Lemma allocates_only_read v : allocates_only (read v).
Proof. intros w. apply extends_refl. Qed.

Lemma allocates_only_Date_now : allocates_only Date_now.
Proof.
  intros w. unfold extends. simpl. repeat split; try lia.
  exists []. now rewrite app_nil_r.
Qed.

Lemma allocates_only_random : allocates_only random.
Proof.
  intros w. unfold extends. simpl. repeat split; try lia.
  exists []. now rewrite app_nil_r.
Qed.

Lemma allocates_only_Buffer_from v : allocates_only (Buffer_from v).
Proof.
  intros w. unfold Buffer_from. destruct (resolve w v); [| apply extends_refl].
  unfold extends. simpl. repeat split; try lia. eauto.
Qed.

Lemma allocates_only_bind {A B} (m : M A) (k : A -> M B) :
  allocates_only m -> (forall a, allocates_only (k a)) ->
  allocates_only (bind m k).
Proof.
  intros Hm Hk w. unfold bind. specialize (Hm w).
  destruct (m w) as [[a | e] w1]; simpl in *; [| exact Hm].
  eapply extends_trans; [exact Hm | apply Hk].
Qed.

Lemma quiet_ret {A} (a : A) : quiet (ret a).
Proof. intros w. split; reflexivity. Qed.

Lemma quiet_throw {A} e : quiet (@throw A e).
Proof. intros w. split; reflexivity. Qed.

Lemma quiet_forge {A} (o : option A) : quiet (forge o).
Proof. intros w. unfold forge. destruct o; split; reflexivity. Qed.

Lemma quiet_read v : quiet (read v).
Proof. intros w. split; reflexivity. Qed.

Lemma quiet_Buffer_from v : quiet (Buffer_from v).
Proof.
  intros w. unfold Buffer_from. destruct (resolve w v); split; reflexivity.
Qed.

Lemma quiet_bind {A B} (m : M A) (k : A -> M B) :
  quiet m -> (forall a, quiet (k a)) -> quiet (bind m k).
Proof.
  intros Hm Hk w. unfold bind. specialize (Hm w).
  destruct (m w) as [[a | e] w1]; simpl in *; [| exact Hm].
  destruct (Hk a w1) as [T D]. destruct Hm as [T1 D1]. split; congruence.
Qed.

Create HintDb frame.
#[export] Hint Resolve allocates_only_ret allocates_only_throw
  allocates_only_lift allocates_only_forge allocates_only_read
  allocates_only_Date_now allocates_only_random allocates_only_Buffer_from
  quiet_ret quiet_throw quiet_forge quiet_read quiet_Buffer_from
  : frame.

Ltac frame :=
  repeat (intros; first
    [ apply allocates_only_bind
    | apply quiet_bind
    | solve [auto with frame] ]).

Section Frame.
Context `{Forge}.

Lemma allocates_only_generateKeyPair bits : allocates_only (generateKeyPair bits).
Proof. unfold generateKeyPair. frame. Qed.

Lemma allocates_only_privateToPublicKey v :
  allocates_only (privateToPublicKey v).
Proof. unfold privateToPublicKey. frame. Qed.

Lemma allocates_only_generateSerialNumber : allocates_only generateSerialNumber.
Proof. unfold generateSerialNumber. frame. Qed.

Lemma allocates_only_toKeyPair root : allocates_only (toKeyPair root).
Proof.
  unfold toKeyPair. destruct (root_keyPair root); [frame |].
  destruct (truthy_val (root_key root)); [| frame].
  apply allocates_only_bind; [| frame].
  destruct (truthy_val (root_publicKey root)); [frame |].
  apply allocates_only_bind; [apply allocates_only_privateToPublicKey | frame].
Qed.

Lemma allocates_only_createCA opts : allocates_only (_createCA opts).
Proof.
  unfold _createCA. destruct opts; [| frame].
  apply allocates_only_bind; [apply allocates_only_generateKeyPair |].
  intros kp. do 2 (apply allocates_only_bind; [frame |]; intros).
  apply allocates_only_bind; [apply allocates_only_generateSerialNumber |].
  frame.
Qed.

Lemma allocates_only_loadCA root : allocates_only (_loadCA root).
Proof.
  unfold _loadCA.
  destruct (negb (truthy_val (root_ca root))); [frame |].
  destruct (_ && _); [frame |].
  apply allocates_only_bind; [apply allocates_only_toKeyPair | frame].
Qed.

Lemma allocates_only_authorize this name opts :
  allocates_only (authorize this name opts).
Proof.
  unfold authorize.
  destruct (negb (truthy_names name)); [frame |].
  destruct opts; [| frame].
  apply allocates_only_bind; [apply allocates_only_generateKeyPair |].
  intros kp. do 2 (apply allocates_only_bind; [frame |]; intros).
  apply allocates_only_bind; [apply allocates_only_generateSerialNumber |].
  frame.
Qed.

(** X1.  No operation of the module ever overwrites or frees a buffer:
    whatever its arguments, and whether it returns or throws, each of the
    constructor, [from], [authorize], the two accessors and the three static
    utilities leaves a world in which every buffer that existed before holds
    the bytes it held, the heap having only grown at its end. *)
Theorem operations_only_allocate (w : World) :
  (forall opts root, extends w (snd (constructor opts root w))) /\
  (forall root, extends w (snd (from root w))) /\
  (forall this name opts, extends w (snd (authorize this name opts w))) /\
  (forall this, extends w (snd (key this w)) /\ extends w (snd (ca this w))) /\
  (forall bits, extends w (snd (keyPair bits w))) /\
  extends w (snd (serialNumber_ w)) /\
  (forall privateKey, extends w (snd (toPublicKey privateKey w))) /\
  (forall w' (l : loc),
      extends w w' -> (l < length (heap w))%nat -> contents w' l = contents w l).
Proof.
  assert (forall opts root, extends w (snd (constructor opts root w))) as C.
  { intros opts [root |]; simpl.
    - apply allocates_only_loadCA.
    - apply allocates_only_createCA. }
  split; [exact C |].
  split; [intros root; apply C |].
  split; [intros; apply allocates_only_authorize |].
  split; [intros; split; apply extends_refl |].
  split; [intros; apply allocates_only_generateKeyPair |].
  split; [apply allocates_only_generateSerialNumber |].
  split; [intros; apply allocates_only_privateToPublicKey |].
  intros w' l. apply extends_contents.
Qed.

Lemma quiet_privateToPublicKey v : quiet (privateToPublicKey v).
Proof. unfold privateToPublicKey. frame. Qed.

Lemma quiet_toKeyPair root : quiet (toKeyPair root).
Proof.
  unfold toKeyPair. destruct (root_keyPair root); [frame |].
  destruct (truthy_val (root_key root)); [| frame].
  apply quiet_bind; [| frame].
  destruct (truthy_val (root_publicKey root)); [frame |].
  apply quiet_bind; [apply quiet_privateToPublicKey | frame].
Qed.

(** X2.  Restoring an authority, and deriving a public key, never read the
    clock and never draw randomness, whatever they are given and whether
    they return or throw: [from] generates no key and no serial number, so
    what it builds is determined by its argument and the buffers alone. *)
Theorem restore_reads_no_clock_and_draws_nothing (w : World) :
  (forall root,
      ticks (snd (from root w)) = ticks w /\
      draws (snd (from root w)) = draws w) /\
  (forall privateKey,
      ticks (snd (toPublicKey privateKey w)) = ticks w /\
      draws (snd (toPublicKey privateKey w)) = draws w).
Proof.
  split.
  - intros [root |]; unfold from, constructor; [| split; reflexivity].
    revert w. change (quiet (_loadCA root)). unfold _loadCA.
    destruct (negb (truthy_val (root_ca root))); [frame |].
    destruct (_ && _); [frame |].
    apply quiet_bind; [apply quiet_toKeyPair | frame].
  - intros v. apply quiet_privateToPublicKey.
Qed.

End Frame.

(** ** What [authorize] issues *)

Section Leaf.
Context `{Forge}.

(** X3.  A certificate issued by [authorize] is an end-entity certificate:
    its extensions are exactly basicConstraints with cA false, keyUsage with
    digitalSignature, keyEncipherment and dataEncipherment only (no
    keyCertSign), extKeyUsage with serverAuth and clientAuth only, nsCertType
    with client and server only, subjectKeyIdentifier, and subjectAltName
    over the names. *)
Theorem leaf_certificate_shape (this : MutualTLS) (name : names) (opts : Opts)
    (w : World) (r : IssuedCertificate) (w' : World) :
  authorize this name (Some opts) w = (Returns r, w') ->
  exists l c,
    name_array name = Some l /\
    contents w' (issued_cert r) = certificateToPem c /\
    extensions c =
      [ basicConstraints false;
        keyUsage false true false true true;
        extKeyUsage true true false false false;
        nsCertType true true false false false false false;
        subjectKeyIdentifier;
        subjectAltName (map getAltName l) ] /\
    ~ In (basicConstraints true) (extensions c).
Proof.
  intros E. apply authorize_Returns in E.
  destruct E as (l & exts & pk & sk & pk' & sk' & sig & _ & Hl & Hexts & _ & _
                 & _ & _ & _ & -> & ->).
  simpl in Hexts. injection Hexts as <-.
  exists l. eexists. split; [exact Hl |].
  cbn [issued_cert]. split; [apply contents_new2 |].
  split; [reflexivity |].
  simpl. intros Hin.
  repeat (destruct Hin as [Hin | Hin]; [discriminate Hin |]). exact Hin.
Qed.

(** X4.  [authorize] makes a new key pair for every certificate and signs
    with whatever the authority's key buffer holds when it is called: the
    returned [key] buffer holds the PEM of the private half of a pair
    generated from the first draw of randomness, the certificate carries the
    public half, and the signature is made with the key parsed from the
    current bytes of the authority's private-key buffer. *)
Theorem authorize_signs_with_current_key (this : MutualTLS) (name : names)
    (opts : Opts) (w : World) (r : IssuedCertificate) (w' : World) :
  (kp_privateKey (_keyPair this) < length (heap w))%nat ->
  authorize this name (Some opts) w = (Returns r, w') ->
  exists c pk sk ca_key sig,
    contents w' (issued_cert r) = certificateToPem c /\
    rsa_generateKeyPair
      (if truthy (opts_bits opts) then opts_bits opts else Num (Fin 2048))
      (entropy w (draws w)) = Some (pk, sk) /\
    contents w' (issued_key r) = privateKeyToPem sk /\
    publicKeyFromPem (Text (publicKeyToPem pk)) = Some (publicKey c) /\
    privateKeyFromPem (Text (contents w (kp_privateKey (_keyPair this))))
      = Some ca_key /\
    certificate_sign ca_key (unsigned c) = Some sig /\
    signature c = Some sig.
Proof.
  intros Hk E. apply authorize_Returns in E.
  destruct E as (l & exts & pk & sk & pk' & sk' & sig & _ & _ & _ & Hgen & Hpub
                 & Hpriv & _ & Hsign & -> & ->).
  unfold after_generation in Hpriv.
  rewrite (contents_old (heap w) _ _ _ _ (clock w) (ticks w) (entropy w)
             (draws w) _ _ Hk) in Hpriv.
  destruct w as [h c ti e d]. cbn [heap clock ticks entropy draws] in *.
  eexists. exists pk, sk, sk', sig.
  cbn [issued_cert issued_key].
  split; [apply contents_new2 |]. split; [exact Hgen |].
  split; [apply contents_new1 |]. split; [exact Hpub |].
  split; [exact Hpriv |]. split; [exact Hsign | reflexivity].
Qed.

End Leaf.

Section LeafRun.
#[local] Existing Instance Standin.lib.

(** A leaf issued by the stand-in's root. *)
Lemma leaf_certificate_shape_witness :
  exists r w' c,
    authorize Standin.root (Name (Str "localhost")) (Some no_opts)
      Standin.world1 = (Returns r, w') /\
    contents w' (issued_cert r) = certificateToPem c /\
    In (basicConstraints false) (extensions c) /\
    ~ In (basicConstraints true) (extensions c).
Proof.
  eexists. eexists.
  destruct (leaf_certificate_shape (H := Standin.lib) Standin.root
              (Name (Str "localhost")) no_opts Standin.world1 _ _
              ltac:(vm_compute; reflexivity))
    as (l & c & _ & Hc & Hexts & Hca).
  exists c. split; [vm_compute; reflexivity |].
  split; [exact Hc |]. split; [rewrite Hexts; now left | exact Hca].
Defined.

(** The stand-in's root signing a leaf with the key its buffer holds. *)
Lemma authorize_signs_with_current_key_witness :
  exists r w' c ca_key sig,
    authorize Standin.root (Name (Str "localhost")) (Some no_opts)
      Standin.world1 = (Returns r, w') /\
    contents w' (issued_cert r) = certificateToPem c /\
    privateKeyFromPem (Text (contents Standin.world1 1%nat)) = Some ca_key /\
    certificate_sign ca_key (unsigned c) = Some sig /\
    signature c = Some sig.
Proof.
  eexists. eexists.
  destruct (authorize_signs_with_current_key (H := Standin.lib) Standin.root
              (Name (Str "localhost")) no_opts Standin.world1 _ _
              ltac:(vm_compute; lia) ltac:(vm_compute; reflexivity))
    as (c & pk & sk & ca_key & sig & Hc & _ & _ & _ & Hkey & Hsign & Hsig).
  exists c, ca_key, sig. split; [vm_compute; reflexivity |].
  split; [exact Hc |]. split; [exact Hkey |]. split; assumption.
Defined.

End LeafRun.

(** ** How the operations fail *)

Lemma throws_only_Buffer_from (P : error -> Prop) v :
  P TypeError -> throws_only P (Buffer_from v).
Proof.
  intros HP w e w' T. unfold Buffer_from in T.
  destruct (resolve w v); inversion T. exact HP.
Qed.

Section Failures.
Context `{Forge}.

Lemma throws_only_generateKeyPair (P : error -> Prop) bits :
  P ForgeError -> throws_only P (generateKeyPair bits).
Proof. intros HP. unfold generateKeyPair. throws. Qed.

Lemma throws_only_generateSerialNumber (P : error -> Prop) :
  throws_only P generateSerialNumber.
Proof. unfold generateSerialNumber. throws. Qed.

Lemma throws_only_privateToPublicKey (P : error -> Prop) v :
  P ForgeError -> throws_only P (privateToPublicKey v).
Proof. intros HP. unfold privateToPublicKey. throws. Qed.

Lemma authorize_throws (this : MutualTLS) name opts :
  truthy_names name = true ->
  throws_only (fun e => e = TypeError \/ e = ForgeError)
    (authorize this name opts).
Proof.
  intros Hn. unfold authorize. rewrite Hn. cbn [negb].
  destruct opts as [opts |]; [| apply throws_only_throw; now left].
  apply throws_only_bind; [apply throws_only_generateKeyPair; now right |].
  intros kp. do 2 (apply throws_only_bind; [throws |]; intros).
  apply throws_only_bind; [apply throws_only_generateSerialNumber |].
  intros serial. do 2 (apply throws_only_bind; [throws |]; intros).
  apply throws_only_bind.
  { apply throws_only_lift. intros e.
    destruct (match name with Name (Str s) => Names [s] | _ => name end);
      simpl; [intros [= <-]; now left | discriminate]. }
  throws.
Qed.

(** X5.  The ways [authorize] ends.  It fails with "Common name is required"
    exactly at the guard, for a falsy name, before anything is generated or
    allocated; past the guard its only failures are a [TypeError] (options
    given as [null], or a name that is neither a string nor an array, whose
    [map] is no function) and errors of node-forge; and it returns a
    certificate only when the name is a non-empty string or an array and the
    options are an object. *)
Theorem authorize_failures (this : MutualTLS) (name : names)
    (opts : option Opts) (w : World) :
  match authorize this name opts w with
  | (Throws e, w') =>
      (e = MissingNameError /\ truthy_names name = false /\ w' = w) \/
      (truthy_names name = true /\ (e = TypeError \/ e = ForgeError))
  | (Returns _, _) =>
      truthy_names name = true /\ opts <> None /\
      exists l, name_array name = Some l
  end.
Proof.
  destruct (truthy_names name) eqn:Hn.
  - destruct (authorize this name opts w) as [[r | e] w'] eqn:E.
    + split; [reflexivity |].
      destruct opts as [opts |].
      * split; [discriminate |]. apply authorize_Returns in E.
        destruct E as (l & _ & _ & _ & _ & _ & _ & _ & Hl & _). eauto.
      * unfold authorize in E. rewrite Hn in E. discriminate E.
    + right. split; [reflexivity |].
      exact (authorize_throws this name opts Hn _ _ _ E).
  - unfold authorize. rewrite Hn. simpl. left. auto.
Qed.

(** X6.  The ways construction ends.  Creating a root from an options object
    fails only when node-forge does.  [from] fails with "Missing
    certificate", with "Missing key pair or private key", with a [TypeError]
    (no root object at all, or key material that is neither a string nor a
    buffer) or inside node-forge, and with nothing else: in particular the
    "Could not get key pair" of [toKeyPair] is never reached through
    [from]. *)
Theorem construction_failures (opts : Opts) (root : option Root) (w : World) :
  match constructor (Some opts) None w with
  | (Throws e, _) => e = ForgeError
  | (Returns _, _) => True
  end /\
  match from root w with
  | (Throws e, _) =>
      (e = MissingCertificateError \/ e = MissingKeyError \/
       e = TypeError \/ e = ForgeError) /\
      e <> Error "Could not get key pair"
  | (Returns _, _) => root <> None
  end.
Proof.
  split.
  - destruct (constructor (Some opts) None w) as [[r | e] w'] eqn:E; [exact I |].
    revert E. simpl. unfold _createCA.
    intros E.
    refine ((_ : throws_only (fun e => e = ForgeError) _) _ _ _ E).
    apply throws_only_bind; [now apply throws_only_generateKeyPair |].
    intros kp. do 2 (apply throws_only_bind; [throws |]; intros).
    apply throws_only_bind; [apply throws_only_generateSerialNumber |].
    throws.
  - destruct (from root w) as [[r | e] w'] eqn:E.
    + destruct root; [discriminate | discriminate E].
    + assert (e = MissingCertificateError \/ e = MissingKeyError \/
              e = TypeError \/ e = ForgeError) as D.
      { revert E. unfold from, constructor.
        destruct root as [root |]; [| intros [= <- _]; auto].
        unfold _loadCA.
        destruct (truthy_val (root_ca root)); cbn [negb];
          [| intros [= <- _]; auto].
        intros E.
        refine ((_ : throws_only
                       (fun e => e = MissingCertificateError \/
                                 e = MissingKeyError \/
                                 e = TypeError \/ e = ForgeError) _) _ _ _ E).
        unfold toKeyPair.
        destruct (root_keyPair root) as [kp |]; cbn [andb negb bool_decide].
        * change (bool_decide (is_Some (Some kp))) with true. cbn [negb andb].
          apply throws_only_bind.
          { apply throws_only_bind; [apply throws_only_Buffer_from; auto |].
            intros. apply throws_only_bind;
              [apply throws_only_Buffer_from; auto | throws]. }
          throws.
        * change (bool_decide (is_Some (@None KeyPairArg))) with false.
          cbn [negb andb].
          destruct (truthy_val (root_key root)); cbn [negb].
          -- apply throws_only_bind.
             { apply throws_only_bind.
               - destruct (truthy_val (root_publicKey root)); [throws |].
                 apply throws_only_bind;
                   [apply throws_only_privateToPublicKey; auto | throws].
               - intros. apply throws_only_bind;
                   [apply throws_only_Buffer_from; auto |].
                 intros. apply throws_only_bind;
                   [apply throws_only_Buffer_from; auto | throws]. }
             throws.
          -- apply throws_only_throw. auto. }
      split; [exact D |].
      destruct D as [-> | [-> | [-> | ->]]]; discriminate.
Qed.

End Failures.

(** ** More on restoring *)

Lemma contents_Buffer_set_other (l b : loc) (i : nat) (c : ascii) (w : World) :
  l <> b -> contents (Buffer_set l i c w) b = contents w b.
Proof.
  intros Hne. unfold Buffer_set, contents.
  destruct (heap w !! l) as [s |]; [| reflexivity].
  unfold set_heap. cbn [heap]. now rewrite list_lookup_insert_ne.
Qed.

Section RestoreMore.
Context `{Forge}.

Lemma privateToPublicKey_run_val (v : jsval) w sk :
  privateKeyFromPem (resolve w v) = Some sk ->
  privateToPublicKey v w
  = (Returns (length (heap w)),
     set_heap
       (heap w ++ [publicKeyToPem (rsa_setPublicKey (key_n sk) (key_e sk))]) w).
Proof.
  intros Hsk. unfold privateToPublicKey.
  rewrite (bind_run _ _ w (resolve w v) w) by reflexivity.
  rewrite (bind_run _ _ w sk w) by (now rewrite Hsk).
  now apply Buffer_from_run.
Qed.

(** X7.  When [root.keyPair] is given, [from] copies its two halves as they
    are into new buffers and takes the certificate as parsed; [root.key] and
    [root.publicKey] are not looked at, and the private key is not parsed,
    so the restoration succeeds as soon as the certificate parses. *)
Theorem restore_from_key_pair (root : Root) (kp : KeyPairArg) (w : World)
    (pub priv : string) (cert : Certificate PublicKey) :
  root_keyPair root = Some kp ->
  truthy_val (root_ca root) = true ->
  exists_in w (kpa_privateKey kp) ->
  exists_in w (root_ca root) ->
  resolve w (kpa_publicKey kp) = Text pub ->
  resolve w (kpa_privateKey kp) = Text priv ->
  certificateFromPem (resolve w (root_ca root)) = Some cert ->
  from (Some root) w
  = (Returns {| _keyPair := {| kp_publicKey := length (heap w);
                               kp_privateKey := S (length (heap w)) |};
                _cert := cert;
                _pem := S (S (length (heap w))) |},
     set_heap (heap w ++ [pub; priv; certificateToPem cert]) w).
Proof.
  intros Hkp Hca Vpriv Vca Rpub Rpriv Hcert.
  destruct w as [h c ti e d]. cbn [heap].
  set (w := {| heap := h; clock := c; ticks := ti; entropy := e; draws := d |}) in *.
  set (w1 := set_heap (h ++ [pub]) w).
  set (w2 := set_heap (h ++ [pub; priv]) w).
  assert (toKeyPair root w
          = (Returns {| kp_publicKey := length h;
                        kp_privateKey := S (length h) |}, w2)) as Hrun.
  { unfold toKeyPair. rewrite Hkp.
    rewrite (bind_run _ _ w (length h) w1) by (now apply Buffer_from_run).
    rewrite (bind_run _ _ w1 (S (length h)) w2).
    2:{ rewrite (Buffer_from_run _ _ priv).
        - unfold w1, w2, set_heap. cbn [heap clock ticks entropy draws].
          rewrite length_app, <- app_assoc. simpl. do 2 f_equal. lia.
        - unfold w1, set_heap. cbn [heap clock ticks entropy draws].
          now rewrite (resolve_grow w). }
    reflexivity. }
  unfold from, constructor, _loadCA. rewrite Hca, Hkp. cbn [negb].
  change (bool_decide (is_Some (Some kp))) with true. cbn [negb andb].
  rewrite (bind_run _ _ _ _ _ Hrun).
  rewrite (bind_run _ _ w2 (resolve w (root_ca root)) w2).
  2:{ unfold read, w2, set_heap. cbn [heap clock ticks entropy draws].
      now rewrite (resolve_grow w). }
  rewrite (bind_run _ _ w2 cert w2) by (now rewrite Hcert).
  rewrite (bind_run _ _ w2 (S (S (length h)))
             (set_heap (h ++ [pub; priv; certificateToPem cert]) w)).
  2:{ rewrite (Buffer_from_run _ _ (certificateToPem cert)) by reflexivity.
      unfold w2, set_heap. cbn [heap clock ticks entropy draws].
      rewrite length_app, <- app_assoc. simpl. do 2 f_equal. lia. }
  reflexivity.
Qed.

(** X8.  [from] given a private key and a certificate checks nothing about
    how the two relate: as soon as the key parses and the certificate parses
    it returns an authority.  The authority's private-key buffer is a byte
    copy of the key it was given, its public key is the one derived from
    that key, and its certificate buffer holds the parsed certificate
    printed again, not the bytes it was given. *)
Theorem restore_checks_no_consistency (root : Root) (w : World)
    (key_text : string) (sk : PrivateKey) (cert : Certificate PublicKey) :
  root_keyPair root = None ->
  truthy_val (root_ca root) = true ->
  truthy_val (root_key root) = true ->
  truthy_val (root_publicKey root) = false ->
  exists_in w (root_key root) ->
  exists_in w (root_ca root) ->
  resolve w (root_key root) = Text key_text ->
  privateKeyFromPem (Text key_text) = Some sk ->
  certificateFromPem (resolve w (root_ca root)) = Some cert ->
  let derived := publicKeyToPem (rsa_setPublicKey (key_n sk) (key_e sk)) in
  from (Some root) w
  = (Returns {| _keyPair := {| kp_publicKey := S (length (heap w));
                               kp_privateKey := S (S (length (heap w))) |};
                _cert := cert;
                _pem := S (S (S (length (heap w)))) |},
     set_heap (heap w ++ [derived; derived; key_text; certificateToPem cert]) w).
Proof.
  intros Hkp Hca Hkey Hpub Vkey Vca Rkey Hsk Hcert derived.
  destruct w as [h c ti e d]. cbn [heap].
  set (w := {| heap := h; clock := c; ticks := ti; entropy := e; draws := d |}) in *.
  set (w1 := set_heap (h ++ [derived]) w).
  set (w2 := set_heap (h ++ [derived; derived]) w).
  set (w3 := set_heap (h ++ [derived; derived; key_text]) w).
  assert (toKeyPair root w
          = (Returns {| kp_publicKey := S (length h);
                        kp_privateKey := S (S (length h)) |}, w3)) as Hrun.
  { unfold toKeyPair. rewrite Hkp, Hkey, Hpub.
    rewrite (bind_run _ _ w (Buf (length h)) w1).
    2:{ rewrite (bind_run _ _ w (length h) w1); [reflexivity |].
        apply privateToPublicKey_run_val. now rewrite Rkey. }
    rewrite (bind_run _ _ w1 (S (length h)) w2).
    2:{ rewrite (Buffer_from_run _ _ derived).
        - unfold w1, w2, set_heap. cbn [heap clock ticks entropy draws].
          rewrite length_app, <- app_assoc. simpl. do 2 f_equal. lia.
        - simpl. f_equal. apply contents_new0. }
    rewrite (bind_run _ _ w2 (S (S (length h))) w3).
    2:{ rewrite (Buffer_from_run _ _ key_text).
        - unfold w2, w3, set_heap. cbn [heap clock ticks entropy draws].
          rewrite length_app, <- app_assoc. simpl. do 2 f_equal. lia.
        - unfold w2, set_heap. cbn [heap clock ticks entropy draws].
          now rewrite (resolve_grow w). }
    reflexivity. }
  unfold from, constructor, _loadCA. rewrite Hca, Hkp, Hkey. cbn [negb].
  rewrite andb_false_r.
  rewrite (bind_run _ _ _ _ _ Hrun).
  rewrite (bind_run _ _ w3 (resolve w (root_ca root)) w3).
  2:{ unfold read, w3, set_heap. cbn [heap clock ticks entropy draws].
      now rewrite (resolve_grow w). }
  rewrite (bind_run _ _ w3 cert w3) by (now rewrite Hcert).
  rewrite (bind_run _ _ w3 (S (S (S (length h))))
             (set_heap (h ++ [derived; derived; key_text; certificateToPem cert]) w)).
  2:{ rewrite (Buffer_from_run _ _ (certificateToPem cert)) by reflexivity.
      unfold w3, set_heap. cbn [heap clock ticks entropy draws].
      rewrite length_app, <- app_assoc. simpl. do 2 f_equal. lia. }
  reflexivity.
Qed.

End RestoreMore.

Section RestoreMoreRun.
#[local] Existing Instance Standin.lib.

(** The stand-in restoring from a key pair whose private half is no key. *)
Lemma restore_from_key_pair_witness :
  exists this w',
    from (Some {| root_ca := Buf 2%nat; root_key := Prim Undefined;
                  root_publicKey := Prim Undefined;
                  root_keyPair :=
                    Some {| kpa_publicKey := Buf 0%nat;
                            kpa_privateKey := Prim (Str "not a key") |} |})
      Standin.world1 = (Returns this, w') /\
    contents w' (kp_privateKey (_keyPair this)) = "not a key" /\
    contents w' (kp_publicKey (_keyPair this)) = contents Standin.world1 0%nat.
Proof.
  eexists. eexists. split.
  - apply (restore_from_key_pair (H := Standin.lib)
             {| root_ca := Buf 2%nat; root_key := Prim Undefined;
                root_publicKey := Prim Undefined;
                root_keyPair :=
                  Some {| kpa_publicKey := Buf 0%nat;
                          kpa_privateKey := Prim (Str "not a key") |} |}
             {| kpa_publicKey := Buf 0%nat;
                kpa_privateKey := Prim (Str "not a key") |}
             Standin.world1 (contents Standin.world1 0%nat) "not a key");
      try reflexivity; try exact I.
    vm_compute. lia.
  - split; vm_compute; reflexivity.
Defined.

(** The stand-in restoring from a private key and a certificate that have
    nothing to do with one another. *)
Lemma restore_checks_no_consistency_witness :
  exists this w',
    from (Some {| root_ca := Prim (Str "Intermediate CA/Upstream Root");
                  root_key := Prim (Str "PRIVATE KEY 00000001");
                  root_publicKey := Prim Undefined; root_keyPair := None |})
      Standin.world = (Returns this, w') /\
    contents w' (kp_privateKey (_keyPair this)) = "PRIVATE KEY 00000001" /\
    contents w' (_pem this) = "Intermediate CA/Upstream Root".
Proof.
  eexists. eexists. split.
  - apply (restore_checks_no_consistency (H := Standin.lib)
             {| root_ca := Prim (Str "Intermediate CA/Upstream Root");
                root_key := Prim (Str "PRIVATE KEY 00000001");
                root_publicKey := Prim Undefined; root_keyPair := None |}
             Standin.world "PRIVATE KEY 00000001" "PRIVATE KEY 00000001");
      try reflexivity; exact I.
  - split; vm_compute; reflexivity.
Defined.

End RestoreMoreRun.

(** ** Restored authorities and the caller's buffers *)

Section RestoreDecoupled.
Context `{Forge}.

Lemma toKeyPair_new root w kp w1 :
  toKeyPair root w = (Returns kp, w1) ->
  (length (heap w) <= kp_publicKey kp < length (heap w1))%nat /\
  (length (heap w) <= kp_privateKey kp < length (heap w1))%nat.
Proof.
  unfold toKeyPair. destruct (root_keyPair root) as [arg |].
  - intros E.
    step E. apply Buffer_from_Returns in Hs. destruct Hs as (s1 & _ & -> & ->).
    step E. apply Buffer_from_Returns in Hs. destruct Hs as (s2 & _ & -> & ->).
    apply ret_Returns in E. destruct E as [-> ->].
    unfold set_heap. cbn [heap kp_publicKey kp_privateKey].
    rewrite !length_app. simpl. lia.
  - destruct (truthy_val (root_key root)); [| discriminate].
    intros E. step E.
    assert (length (heap w) <= length (heap w0))%nat as Hgrow.
    { destruct (truthy_val (root_publicKey root)).
      - apply ret_Returns in Hs. destruct Hs as [_ ->]. lia.
      - step Hs. apply privateToPublicKey_Returns in Hs0.
        destruct Hs0 as (sk & _ & -> & ->).
        apply ret_Returns in Hs. destruct Hs as [_ ->].
        unfold set_heap. cbn [heap]. rewrite length_app. lia. }
    step E. apply Buffer_from_Returns in Hs0. destruct Hs0 as (s1 & _ & -> & ->).
    step E. apply Buffer_from_Returns in Hs0. destruct Hs0 as (s2 & _ & -> & ->).
    apply ret_Returns in E. destruct E as [-> ->].
    unfold set_heap. cbn [heap kp_publicKey kp_privateKey].
    rewrite !length_app. simpl. lia.
Qed.

Lemma loadCA_new root w this w' :
  _loadCA root w = (Returns this, w') ->
  forall b, In b (buffers this) ->
    (length (heap w) <= b < length (heap w'))%nat.
Proof.
  unfold _loadCA.
  destruct (negb (truthy_val (root_ca root))); [discriminate |].
  destruct (_ && _); [discriminate |].
  intros E. step E. apply toKeyPair_new in Hs. destruct Hs as [Hpub Hpriv].
  step E. step E. step E. apply ret_Returns in E. destruct E as [-> ->].
  unfold buffers, set_heap. cbn [heap _keyPair _pem In].
  rewrite length_app. simpl.
  intros b [<- | [<- | [<- | []]]]; lia.
Qed.

(** X9.  A restored authority shares no buffer with its caller.  Every buffer
    it holds was allocated by [from]; so whatever the caller then writes into
    any buffer that existed before the call, the ones it passed as [key] and
    [ca] included, the bytes of the authority's key pair and certificate stay
    as they are. *)
Theorem restore_is_decoupled_from_caller (root : Root) (w : World)
    (this : MutualTLS) (w' : World) (l : loc) (i : nat) (c : ascii) (b : loc) :
  from (Some root) w = (Returns this, w') ->
  (l < length (heap w))%nat ->
  In b (buffers this) ->
  l <> b /\
  contents (Buffer_set l i c w') b = contents w' b /\
  contents w' l = contents w l.
Proof.
  intros E Hl Hb. unfold from, constructor in E.
  pose proof (loadCA_new _ _ _ _ E b Hb) as Hnew.
  assert (l <> b) as Hne by lia.
  split; [exact Hne |]. split; [now apply contents_Buffer_set_other |].
  apply extends_contents; [| exact Hl].
  pose proof (allocates_only_loadCA root w) as X. now rewrite E in X.
Qed.

(** X10.  The public key a restored authority holds, when it was given a
    private key but neither a key pair nor a public key, is what
    [toPublicKey] returns for that private key. *)
Theorem restore_derives_what_toPublicKey_returns (root : Root) (w : World)
    (this : MutualTLS) (w' : World) :
  root_keyPair root = None ->
  truthy_val (root_publicKey root) = false ->
  exists_in w (root_key root) ->
  exists_in w (root_ca root) ->
  from (Some root) w = (Returns this, w') ->
  exists l w1,
    toPublicKey (root_key root) w = (Returns l, w1) /\
    contents w' (kp_publicKey (_keyPair this)) = contents w1 l.
Proof.
  intros Hkp Hpub Vkey Vca E. unfold from, constructor in E.
  apply loadCA_derived in E; try assumption.
  destruct E as (sk & skey & cert & Rsk & _ & _ & -> & ->).
  unfold toPublicKey. rewrite (privateToPublicKey_run_val _ _ _ Rsk).
  eexists. eexists. split; [reflexivity |].
  unfold set_heap. cbn [_keyPair kp_publicKey].
  now rewrite contents_new1, contents_new0.
Qed.

End RestoreDecoupled.

Section RestoreDecoupledRun.
#[local] Existing Instance Standin.lib.

(** The stand-in's root restored from its own buffers, after which the
    caller overwrites the first byte of the key buffer it passed. *)
Lemma restore_is_decoupled_from_caller_witness :
  exists this w',
    from (Some {| root_ca := Buf 2%nat; root_key := Buf 1%nat;
                  root_publicKey := Prim Undefined; root_keyPair := None |})
      Standin.world1 = (Returns this, w') /\
    contents (Buffer_set 1%nat 0 "X" w') (kp_privateKey (_keyPair this))
      = contents w' (kp_privateKey (_keyPair this)).
Proof.
  eexists. eexists. split; [vm_compute; reflexivity |].
  refine (proj1 (proj2 (restore_is_decoupled_from_caller (H := Standin.lib)
            {| root_ca := Buf 2%nat; root_key := Buf 1%nat;
               root_publicKey := Prim Undefined; root_keyPair := None |}
            Standin.world1 _ _ 1%nat 0%nat "X"%char _
            ltac:(vm_compute; reflexivity) ltac:(vm_compute; lia) _))).
  right. left. reflexivity.
Defined.

(** The stand-in's root restored from its key: the derived public key. *)
Lemma restore_derives_what_toPublicKey_returns_witness :
  exists this w' l w1,
    from (Some {| root_ca := Buf 2%nat; root_key := Buf 1%nat;
                  root_publicKey := Prim Undefined; root_keyPair := None |})
      Standin.world1 = (Returns this, w') /\
    toPublicKey (Buf 1%nat) Standin.world1 = (Returns l, w1) /\
    contents w' (kp_publicKey (_keyPair this)) = contents w1 l.
Proof.
  eexists. eexists.
  destruct (restore_derives_what_toPublicKey_returns (H := Standin.lib)
              {| root_ca := Buf 2%nat; root_key := Buf 1%nat;
                 root_publicKey := Prim Undefined; root_keyPair := None |}
              Standin.world1 _ _ eq_refl eq_refl
              ltac:(vm_compute; lia) ltac:(vm_compute; lia)
              ltac:(vm_compute; reflexivity)) as (l & w1 & Hrun & Hc).
  exists l, w1. split; [vm_compute; reflexivity |].
  split; [exact Hrun | exact Hc].
Defined.

End RestoreDecoupledRun.

(** ** Issued certificates *)

Lemma bind_ext_run {A B} (m : M A) (k1 k2 : A -> M B) w :
  (forall a w1, m w = (Returns a, w1) -> k1 a w1 = k2 a w1) ->
  bind m k1 w = bind m k2 w.
Proof.
  intros Hk. unfold bind. destruct (m w) as [[a | e] w1]; [| reflexivity].
  now apply Hk.
Qed.

Lemma bind_same_continuation {A B} (m1 m2 : M A) (k : A -> M B) w :
  m1 w = m2 w -> bind m1 k w = bind m2 k w.
Proof.
  intros E. unfold bind. now rewrite E.
Qed.

(** Two runs that start with the same step continue from its result. *)
Ltac same_step :=
  let a := fresh "a" in
  let w := fresh "w" in
  let Hs := fresh "Hs" in
  apply bind_ext_run; intros a w Hs;
  lazymatch type of Hs with
  | forge _ _ = _ => apply forge_Returns in Hs; destruct Hs as [Hs ->]
  | lift _ _ = _ => apply lift_Returns in Hs; destruct Hs as [Hs ->]
  | read _ _ = _ => apply read_Returns in Hs; destruct Hs as [-> ->]
  | Date_now _ = _ => apply Date_now_Returns in Hs; destruct Hs as [-> ->]
  | _ => idtac
  end.

Section Issued.
Context `{Forge}.

(** X11.  Certificates issued one after the other share no buffer, with one
    another or with anything that existed before: the [key] and [cert]
    buffers of a call are new, distinct from each other and from those of
    the next call, and the next call leaves them as they are. *)
Theorem issued_certificates_do_not_alias (this that : MutualTLS)
    (n1 n2 : names) (o1 o2 : Opts) (w : World)
    (r1 : IssuedCertificate) (w1 : World)
    (r2 : IssuedCertificate) (w2 : World) :
  authorize this n1 (Some o1) w = (Returns r1, w1) ->
  authorize that n2 (Some o2) w1 = (Returns r2, w2) ->
  (length (heap w) <= issued_key r1)%nat /\
  (length (heap w) <= issued_cert r1)%nat /\
  issued_key r1 <> issued_cert r1 /\
  issued_key r2 <> issued_cert r2 /\
  issued_key r2 <> issued_key r1 /\ issued_key r2 <> issued_cert r1 /\
  issued_cert r2 <> issued_key r1 /\ issued_cert r2 <> issued_cert r1 /\
  contents w2 (issued_key r1) = contents w1 (issued_key r1) /\
  contents w2 (issued_cert r1) = contents w1 (issued_cert r1).
Proof.
  intros E1 E2.
  pose proof (allocates_only_authorize that n2 (Some o2) w1) as X.
  rewrite E2 in X. cbn [snd] in X.
  apply authorize_Returns in E1.
  destruct E1 as (l1 & exts1 & pk1 & sk1 & pk1' & sk1' & sig1 & _ & _ & _ & _
                  & _ & _ & _ & _ & -> & ->).
  apply authorize_Returns in E2.
  destruct E2 as (l2 & exts2 & pk2 & sk2 & pk2' & sk2' & sig2 & _ & _ & _ & _
                  & _ & _ & _ & _ & -> & ->).
  cbn [issued_key issued_cert heap] in *.
  rewrite !length_app. cbn [length].
  repeat split; try lia;
    apply extends_contents; try exact X; cbn [heap];
    rewrite length_app; simpl; lia.
Qed.

(** X12.  What [authorize] does depends on the authority only through the
    issuer attributes of its certificate and the bytes of its private-key
    buffer: two authorities that agree on these, such as a root and the
    authority restored from it, run [authorize] identically, to the same
    result and the same world. *)
Theorem authorize_depends_on_issuer_and_key (this that : MutualTLS)
    (name : names) (opts : option Opts) (w : World) :
  issuer (_cert this) = issuer (_cert that) ->
  (kp_privateKey (_keyPair this) < length (heap w))%nat ->
  (kp_privateKey (_keyPair that) < length (heap w))%nat ->
  contents w (kp_privateKey (_keyPair this))
    = contents w (kp_privateKey (_keyPair that)) ->
  authorize this name opts w = authorize that name opts w.
Proof.
  intros Hi Vthis Vthat Hkey. unfold authorize.
  destruct (negb (truthy_names name)); [reflexivity |].
  destruct opts as [opts |]; [| reflexivity].
  rewrite Hi.
  apply bind_ext_run. intros kp w1 Hgen.
  apply generateKeyPair_Returns in Hgen.
  destruct Hgen as (pk & sk & _ & -> & ->).
  same_step. same_step.
  apply bind_ext_run. intros serial w2 Hser.
  apply generateSerialNumber_Returns in Hser. destruct Hser as [-> ->].
  same_step. same_step. same_step. same_step. same_step. same_step.
  cbn [heap clock ticks entropy draws].
  apply bind_same_continuation. unfold read. cbn [resolve].
  rewrite (contents_old (heap w) _ _ _ _ (clock w) (ticks w) (entropy w)
             (draws w) _ _ Vthis).
  rewrite (contents_old (heap w) _ _ _ _ (clock w) (ticks w) (entropy w)
             (draws w) _ _ Vthat).
  destruct w as [h c ti e d]. cbn [heap clock ticks entropy draws] in *.
  rewrite Hkey. reflexivity.
Qed.

End Issued.

Section IssuedRun.
#[local] Existing Instance Standin.lib.

(** Two leaves issued by the stand-in's root, one after the other. *)
Lemma issued_certificates_do_not_alias_witness :
  exists r1 w1 r2 w2,
    authorize Standin.root (Name (Str "localhost")) (Some no_opts)
      Standin.world1 = (Returns r1, w1) /\
    authorize Standin.root (Name (Str "127.0.0.1")) (Some no_opts) w1
      = (Returns r2, w2) /\
    issued_key r2 <> issued_key r1 /\
    issued_cert r2 <> issued_cert r1 /\
    contents w2 (issued_cert r1) = contents w1 (issued_cert r1).
Proof.
  eexists. eexists. eexists. eexists.
  split; [vm_compute; reflexivity |]. split; [vm_compute; reflexivity |].
  destruct (issued_certificates_do_not_alias (H := Standin.lib)
              Standin.root Standin.root
              (Name (Str "localhost")) (Name (Str "127.0.0.1"))
              no_opts no_opts Standin.world1 _ _ _ _
              ltac:(vm_compute; reflexivity) ltac:(vm_compute; reflexivity))
    as (_ & _ & _ & _ & N1 & _ & _ & N2 & _ & C2).
  split; [exact N1 |]. split; [exact N2 | exact C2].
Defined.

(** The stand-in's root and the authority restored from it issue alike. *)
Lemma authorize_depends_on_issuer_and_key_witness :
  exists clone w2,
    from (Some {| root_ca := Buf 2%nat; root_key := Buf 1%nat;
                  root_publicKey := Prim Undefined; root_keyPair := None |})
      Standin.world1 = (Returns clone, w2) /\
    authorize Standin.root (Name (Str "localhost")) (Some no_opts) w2
      = authorize clone (Name (Str "localhost")) (Some no_opts) w2.
Proof.
  eexists. eexists. split; [vm_compute; reflexivity |].
  apply (authorize_depends_on_issuer_and_key (H := Standin.lib)).
  - vm_compute. reflexivity.
  - vm_compute. lia.
  - vm_compute. lia.
  - vm_compute. reflexivity.
Defined.

End IssuedRun.

(** ** Expiry, key pairs, serial numbers *)

Section More.
Context `{Forge}.

(** X13.  The expiry is not validated.  A negative expiry is taken as it is,
    for a root and for a leaf: notAfter is still the second clock reading
    plus the expiry, and once that falls before the first reading minus one
    day the certificate is issued with notAfter earlier than notBefore. *)
Theorem expiry_is_not_validated (opts : Opts) (w : World) (e : Z) :
  let t1 := clock w (ticks w) in
  let t2 := clock w (S (ticks w)) in
  opts_expiry opts = Num (Fin e) ->
  e < 0 ->
  valid_time (t1 - 86400000) ->
  valid_time (t2 + e * 1000) ->
  t2 + e * 1000 < t1 - 86400000 ->
  (forall this w',
      constructor (Some opts) None w = (Returns this, w') ->
      notAfter (_cert this) = Fin (t2 + e * 1000) /\
      num_lt (notAfter (_cert this)) (notBefore (_cert this)) = true) /\
  (forall this name r w',
      authorize this name (Some opts) w = (Returns r, w') ->
      exists c,
        contents w' (issued_cert r) = certificateToPem c /\
        notAfter c = Fin (t2 + e * 1000) /\
        num_lt (notAfter c) (notBefore c) = true).
Proof.
  intros t1 t2 He Hneg V1 V2 Hlt.
  assert (forall d, expiry_is d (opts_expiry opts) e) as Hexp.
  { intros d. right. split; [exact He | lia]. }
  split.
  - intros this w' E. simpl in E. apply createCA_Returns in E.
    destruct E as (pk & sk & pk' & sk' & sig & _ & _ & _ & _ & _ & -> & _).
    destruct (window ROOT_NOT_AFTER _ e t1 t2 ltac:(discriminate)
                (Hexp _) V1 V2) as [Hnb Hna].
    unfold root_certificate, with_signature, build.
    cbn [_cert notBefore notAfter]. fold t1 t2. rewrite Hnb, Hna.
    split; [reflexivity |]. apply Z.ltb_lt. exact Hlt.
  - intros this name r w' E. apply authorize_Returns in E.
    destruct E as (l & exts & pk & sk & pk' & sk' & sig & _ & _ & _ & _ & _
                   & _ & _ & _ & -> & ->).
    destruct (window CERT_NOT_AFTER _ e t1 t2 ltac:(discriminate)
                (Hexp _) V1 V2) as [Hnb Hna].
    eexists. cbn [issued_cert]. split; [apply contents_new2 |].
    unfold leaf_certificate, with_signature, build.
    cbn [notBefore notAfter]. fold t1 t2. rewrite Hnb, Hna.
    split; [reflexivity |]. apply Z.ltb_lt. exact Hlt.
Qed.

(** X14.  [MutualTLS.keyPair (bits)]: a falsy [bits] stands for 2048.  When
    the library generates a pair, the call returns two new, distinct buffers
    holding the PEM of the public key and of the private key of that one
    pair, in this order; when the library fails, the call fails with the
    library's error and has allocated nothing.  Either way it consumes one
    draw of randomness and does not read the clock. *)
Theorem keyPair_runs (bits : prim) (w : World) :
  let asked := if truthy bits then bits else Num (Fin 2048) in
  let drawn := {| heap := heap w; clock := clock w; ticks := ticks w;
                  entropy := entropy w; draws := S (draws w) |} in
  match rsa_generateKeyPair asked (entropy w (draws w)) with
  | Some (pk, sk) =>
      keyPair bits w
      = (Returns {| kp_publicKey := length (heap w);
                    kp_privateKey := S (length (heap w)) |},
         set_heap (heap w ++ [publicKeyToPem pk; privateKeyToPem sk]) drawn)
  | None => keyPair bits w = (Throws ForgeError, drawn)
  end.
Proof.
  cbv zeta. unfold keyPair, generateKeyPair.
  change (or_else bits (Num (Fin RSA_KEY_SIZE)))
    with (if truthy bits then bits else Num (Fin 2048)).
  set (asked := if truthy bits then bits else Num (Fin 2048)).
  set (drawn := {| heap := heap w; clock := clock w; ticks := ticks w;
                   entropy := entropy w; draws := S (draws w) |}).
  rewrite (bind_run _ _ w (entropy w (draws w)) drawn) by reflexivity.
  destruct (rsa_generateKeyPair asked (entropy w (draws w))) as [[pk sk] |].
  - rewrite (bind_run _ _ drawn (pk, sk) drawn) by reflexivity.
    cbn [fst snd].
    rewrite (bind_run _ _ drawn (length (heap w))
               (set_heap (heap w ++ [publicKeyToPem pk]) drawn))
      by reflexivity.
    rewrite (bind_run _ _ (set_heap (heap w ++ [publicKeyToPem pk]) drawn)
               (S (length (heap w)))
               (set_heap (heap w ++ [publicKeyToPem pk; privateKeyToPem sk]) drawn)).
    + reflexivity.
    + unfold Buffer_from, set_heap. cbn [resolve heap clock ticks entropy draws].
      rewrite length_app, <- app_assoc. simpl. do 2 f_equal. lia.
  - reflexivity.
Qed.

(** X15.  Every certificate the module makes carries a serial number of 32
    hexadecimal digits, given that the platform's [randomUUID] returns the
    textual form of a UUID: the serial number of a root and of a leaf is
    what the generator makes of the second draw of the call (the first goes
    to the key pair). *)
Theorem certificates_carry_hex_serial_numbers (w : World) :
  is_uuid (randomUUID (entropy w (S (draws w)))) = true ->
  (forall opts this w',
      constructor (Some opts) None w = (Returns this, w') ->
      serialNumber (_cert this)
        = remove_dashes (randomUUID (entropy w (S (draws w)))) /\
      String.length (serialNumber (_cert this)) = 32%nat /\
      all_chars is_hex (serialNumber (_cert this)) = true) /\
  (forall this name opts r w',
      authorize this name (Some opts) w = (Returns r, w') ->
      exists c,
        contents w' (issued_cert r) = certificateToPem c /\
        serialNumber c = remove_dashes (randomUUID (entropy w (S (draws w)))) /\
        String.length (serialNumber c) = 32%nat /\
        all_chars is_hex (serialNumber c) = true).
Proof.
  intros U. apply hex_groups_spec in U. destruct U as [Hlen Hall].
  split.
  - intros opts this w' E. simpl in E. apply createCA_Returns in E.
    destruct E as (pk & sk & pk' & sk' & sig & _ & _ & _ & _ & _ & -> & _).
    cbn [_cert serialNumber with_signature root_certificate build].
    auto.
  - intros this name opts r w' E. apply authorize_Returns in E.
    destruct E as (l & exts & pk & sk & pk' & sk' & sig & _ & _ & _ & _ & _
                   & _ & _ & _ & -> & ->).
    eexists. cbn [issued_cert]. split; [apply contents_new2 |].
    cbn [serialNumber with_signature leaf_certificate build].
    auto.
Qed.

End More.

Section MoreRun.
#[local] Existing Instance Standin.lib.

(** The stand-in issuing a leaf with an expiry of minus two days. *)
Lemma expiry_is_not_validated_witness :
  exists r w' c,
    authorize Standin.root (Name (Str "localhost"))
      (Some {| opts_name := Undefined; opts_bits := Undefined;
               opts_expiry := Num (Fin (-172800)) |})
      Standin.world1 = (Returns r, w') /\
    contents w' (issued_cert r) = certificateToPem c /\
    num_lt (notAfter c) (notBefore c) = true.
Proof.
  eexists. eexists.
  destruct (expiry_is_not_validated (H := Standin.lib)
              {| opts_name := Undefined; opts_bits := Undefined;
                 opts_expiry := Num (Fin (-172800)) |}
              Standin.world1 (-172800) eq_refl eq_refl
              ltac:(unfold valid_time; vm_compute; discriminate)
              ltac:(unfold valid_time; vm_compute; discriminate)
              eq_refl) as [_ T].
  destruct (T Standin.root (Name (Str "localhost")) _ _
              ltac:(vm_compute; reflexivity)) as (c & Hc & _ & Hlt).
  exists c. split; [vm_compute; reflexivity |]. split; assumption.
Defined.

(** A root and a leaf of the stand-in. *)
Lemma certificates_carry_hex_serial_numbers_witness :
  String.length (serialNumber (_cert Standin.root)) = 32%nat /\
  exists r w' c,
    authorize Standin.root (Name (Str "localhost")) (Some no_opts)
      Standin.world1 = (Returns r, w') /\
    contents w' (issued_cert r) = certificateToPem c /\
    String.length (serialNumber c) = 32%nat.
Proof.
  split.
  - destruct (certificates_carry_hex_serial_numbers (H := Standin.lib)
                Standin.world ltac:(vm_compute; reflexivity)) as [T _].
    exact (proj1 (proj2 (T no_opts Standin.root Standin.world1
                           ltac:(vm_compute; reflexivity)))).
  - destruct (certificates_carry_hex_serial_numbers (H := Standin.lib)
                Standin.world1 ltac:(vm_compute; reflexivity)) as [_ T].
    eexists. eexists.
    destruct (T Standin.root (Name (Str "localhost")) no_opts _ _
                ltac:(vm_compute; reflexivity)) as (c & Hc & _ & Hlen & _).
    exists c. split; [vm_compute; reflexivity |]. split; assumption.
Defined.

End MoreRun.

(** ** A root and its leaves *)

Section Chain.
Context `{Forge}.

(** X16.  A leaf issued by a freshly created root chains to it: as long as
    the root's private-key buffer still holds the bytes it was created with,
    the leaf is signed with the very key that signed the root's own
    certificate, and names the root's subject as its issuer. *)
Theorem leaf_is_signed_by_the_root_key (opts : Opts) (w : World)
    (root : MutualTLS) (w1 w2 : World) (name : names) (o : Opts)
    (r : IssuedCertificate) (w3 : World) :
  constructor (Some opts) None w = (Returns root, w1) ->
  (kp_privateKey (_keyPair root) < length (heap w2))%nat ->
  contents w2 (kp_privateKey (_keyPair root))
    = contents w1 (kp_privateKey (_keyPair root)) ->
  authorize root name (Some o) w2 = (Returns r, w3) ->
  exists c root_key root_sig sig,
    contents w3 (issued_cert r) = certificateToPem c /\
    certificate_sign root_key (unsigned (_cert root)) = Some root_sig /\
    signature (_cert root) = Some root_sig /\
    certificate_sign root_key (unsigned c) = Some sig /\
    signature c = Some sig /\
    issuer c = subject (_cert root).
Proof.
  intros E Hk Hsame A. simpl in E. apply createCA_Returns in E.
  destruct E as (pk & sk & pk' & sk' & sig0 & _ & _ & Hpriv & _ & Hsign0 & -> & ->).
  cbn [_keyPair kp_privateKey _cert] in *.
  rewrite contents_new1 in Hsame.
  apply authorize_Returns in A.
  destruct A as (l & exts & pk2 & sk2 & pk2' & sk2' & sig & _ & _ & _ & _ & _
                 & Hpriv2 & _ & Hsign & -> & ->).
  cbn [_keyPair kp_privateKey _cert] in *.
  unfold after_generation in Hpriv2.
  rewrite (contents_old (heap w2) _ _ _ _ (clock w2) (ticks w2) (entropy w2)
             (draws w2) _ _ Hk) in Hpriv2.
  assert (contents {| heap := heap w2; clock := clock w2; ticks := ticks w2;
                      entropy := entropy w2; draws := draws w2 |}
            (S (length (heap w)))
          = contents w2 (S (length (heap w)))) as Eta by (now destruct w2).
  rewrite Eta, Hsame, Hpriv in Hpriv2. injection Hpriv2 as <-.
  eexists. exists sk', sig0, sig.
  cbn [issued_cert]. split; [apply contents_new2 |].
  split; [exact Hsign0 |]. split; [reflexivity |].
  split; [exact Hsign |]. split; reflexivity.
Qed.

End Chain.

Section ChainRun.
#[local] Existing Instance Standin.lib.

(** The stand-in's root and a leaf issued by it. *)
Lemma leaf_is_signed_by_the_root_key_witness :
  exists r w3 c root_key root_sig sig,
    authorize Standin.root (Name (Str "localhost")) (Some no_opts)
      Standin.world1 = (Returns r, w3) /\
    contents w3 (issued_cert r) = certificateToPem c /\
    certificate_sign root_key (unsigned (_cert Standin.root)) = Some root_sig /\
    signature (_cert Standin.root) = Some root_sig /\
    certificate_sign root_key (unsigned c) = Some sig /\
    signature c = Some sig.
Proof.
  eexists. eexists.
  destruct (leaf_is_signed_by_the_root_key (H := Standin.lib) no_opts
              Standin.world Standin.root Standin.world1 Standin.world1
              (Name (Str "localhost")) no_opts _ _
              ltac:(vm_compute; reflexivity) ltac:(vm_compute; lia) eq_refl
              ltac:(vm_compute; reflexivity))
    as (c & k & s0 & s & Hc & H0 & H1 & H2 & H3 & _).
  exists c, k, s0, s. split; [vm_compute; reflexivity |].
  split; [exact Hc |]. split; [exact H0 |]. split; [exact H1 |].
  split; [exact H2 | exact H3].
Defined.

End ChainRun.
